(** * structured-cli-notes: config resolution and ticker lookup

    A shallow embedding of [notes-app/config.py], [notes-app/yf_api.py]
    and [notes-app/app.py].

    - Python [str] values are sequences of Unicode code points ([list N]).
    - Files hold bytes; text-mode reads decode them as UTF-8 (strict) and
      translate newlines, as [open(path, "r")] does on a POSIX system whose
      preferred encoding is UTF-8.
    - [pathlib.Path] values are an anchor and a list of components.
    - The file system is a finite map from absolute component lists to
      nodes (directories and regular files with permission bits).
    - Functions that touch the file system are state-passing computations
      that end in a value or in a raised exception.
    - Logging calls are not modelled: they do not influence control flow.

    The first part of the file is the model, the second part its
    properties. *)

From Stdlib Require Import ZArith NArith List String Ascii Lia Floats.
From Stdlib.Strings Require Import Byte.
From stdpp Require Import base option list gmap.
Import ListNotations.

Set Warnings "-inexact-float,-register-all".

(** ** Text *)

Definition str := list N.

(** An ASCII literal as a Python string. *)
Definition lit (s : string) : str :=
  map N_of_ascii (list_ascii_of_string s).

(** The same, every apostrophe standing for a double quote: JSON text. *)
Definition jlit (s : string) : str :=
  map (fun c => if (c =? 39)%N then 34%N else c) (lit s).

Module Text.

(** [str.isspace] for a single code point: the characters CPython's
    [str.strip()] removes when called without arguments. *)
Definition isspace (c : N) : bool :=
  ((0x09 <=? c) && (c <=? 0x0D) ||
   (0x1C <=? c) && (c <=? 0x20) ||
   (c =? 0x85) || (c =? 0xA0) || (c =? 0x1680) ||
   (0x2000 <=? c) && (c <=? 0x200A) ||
   (c =? 0x2028) || (c =? 0x2029) || (c =? 0x202F) ||
   (c =? 0x205F) || (c =? 0x3000))%N.

Fixpoint lstrip (s : str) : str :=
  match s with
  | c :: r => if isspace c then lstrip r else s
  | [] => []
  end.

Definition rstrip (s : str) : str := rev (lstrip (rev s)).

(** [s.strip()] *)
Definition strip (s : str) : str := rstrip (lstrip s).

(** Universal newline translation of a text-mode read: CR LF and a lone
    CR both become LF. *)
Fixpoint universal_newlines (s : str) : str :=
  match s with
  | [] => []
  | c :: r =>
      if (c =? 13)%N then
        match r with
        | d :: r' =>
            if (d =? 10)%N then 10%N :: universal_newlines r'
            else 10%N :: universal_newlines r
        | [] => [10%N]
        end
      else c :: universal_newlines r
  end.

(** *** The UTF-8 codec (strict error handling) *)

Definition is_cont (b : N) : bool := ((0x80 <=? b) && (b <? 0xC0))%N.
Definition is_surrogate (c : N) : bool := ((0xD800 <=? c) && (c <? 0xE000))%N.

(** [bytes.decode("utf-8")]: [None] stands for [UnicodeDecodeError].
    Over-long forms, surrogates and values above U+10FFFF are rejected. *)
Fixpoint utf8_decode (bs : list N) : option str :=
  match bs with
  | [] => Some []
  | b0 :: r0 =>
      if (b0 <? 0x80)%N then cons b0 <$> utf8_decode r0
      else if (b0 <? 0xC0)%N then None
      else if (b0 <? 0xE0)%N then
        match r0 with
        | b1 :: r1 =>
            let c := ((b0 - 0xC0) * 64 + (b1 - 0x80))%N in
            if is_cont b1 && (0x80 <=? c)%N
            then cons c <$> utf8_decode r1 else None
        | _ => None
        end
      else if (b0 <? 0xF0)%N then
        match r0 with
        | b1 :: b2 :: r2 =>
            let c := (((b0 - 0xE0) * 64 + (b1 - 0x80)) * 64 + (b2 - 0x80))%N in
            if is_cont b1 && is_cont b2 && (0x800 <=? c)%N
               && negb (is_surrogate c)
            then cons c <$> utf8_decode r2 else None
        | _ => None
        end
      else if (b0 <? 0xF8)%N then
        match r0 with
        | b1 :: b2 :: b3 :: r3 =>
            let c := ((((b0 - 0xF0) * 64 + (b1 - 0x80)) * 64
                       + (b2 - 0x80)) * 64 + (b3 - 0x80))%N in
            if is_cont b1 && is_cont b2 && is_cont b3
               && (0x10000 <=? c)%N && (c <? 0x110000)%N
            then cons c <$> utf8_decode r3 else None
        | _ => None
        end
      else None
  end.

(** The UTF-8 form of one code point; [None] stands for
    [UnicodeEncodeError] (a lone surrogate). *)
Definition utf8_encode_cp (c : N) : option (list N) :=
  if (c <? 0x80)%N then Some [c]
  else if (c <? 0x800)%N then Some [0xC0 + c / 64; 0x80 + c mod 64]%N
  else if (c <? 0x10000)%N then
    if is_surrogate c then None
    else Some [0xE0 + c / 4096; 0x80 + (c / 64) mod 64; 0x80 + c mod 64]%N
  else if (c <? 0x110000)%N then
    Some [0xF0 + c / 262144; 0x80 + (c / 4096) mod 64;
          0x80 + (c / 64) mod 64; 0x80 + c mod 64]%N
  else None.

Fixpoint utf8_encode (s : str) : option (list N) :=
  match s with
  | [] => Some []
  | c :: r =>
      match utf8_encode_cp c, utf8_encode r with
      | Some bs, Some rest => Some (bs ++ rest)
      | _, _ => None
      end
  end.

Definition byte_of_N (n : N) : byte :=
  match Byte.of_N n with Some b => b | None => x00 end.

(** [data.decode()] and [text.encode()] on the bytes of a file. *)
Definition decode (data : list byte) : option str :=
  utf8_decode (map Byte.to_N data).

Definition encode (s : str) : option (list byte) :=
  map byte_of_N <$> utf8_encode s.

End Text.

(** ** Paths ([pathlib.PurePosixPath]) *)

(** The root of a POSIX path: none (relative), [/], or the special [//]
    that pathlib keeps apart. *)
Inductive anchor := Rel | Root | Root2.

Record Path := mkPath { anchor_of : anchor; parts : list str }.

#[global] Instance anchor_eq_dec : EqDecision anchor.
Proof. solve_decision. Defined.

#[global] Instance Path_eq_dec : EqDecision Path.
Proof. solve_decision. Defined.

Module Pathlib.

Definition sep : N := 47.   (* the slash *)
Definition dot : str := [46%N].

(** [s.split(sep)] *)
Fixpoint split_sep (s : str) : list str :=
  match s with
  | [] => [[]]
  | c :: r =>
      if (c =? sep)%N then [] :: split_sep r
      else match split_sep r with
           | h :: t => (c :: h) :: t
           | [] => [[c]]
           end
  end.

(** [sep.join(ps)] *)
Fixpoint join_sep (ps : list str) : str :=
  match ps with
  | [] => []
  | [p] => p
  | p :: rest => p ++ sep :: join_sep rest
  end.

(** [posixpath.splitroot]: exactly two leading slashes are a root of
    their own, one or three and more are [/]. *)
Definition root_of (s : str) : anchor :=
  match s with
  | a :: b :: c :: _ =>
      if (a =? sep)%N then
        if (b =? sep)%N then if (c =? sep)%N then Root else Root2
        else Root
      else Rel
  | [a; b] =>
      if (a =? sep)%N then if (b =? sep)%N then Root2 else Root else Rel
  | [a] => if (a =? sep)%N then Root else Rel
  | [] => Rel
  end.

Definition keep_part (x : str) : bool :=
  negb (bool_decide (x = [])) && negb (bool_decide (x = dot)).

(** [Path(s)]: empty components and single dots are dropped. *)
Definition of_str (s : str) : Path :=
  mkPath (root_of s) (List.filter keep_part (split_sep s)).

(** [str(path)] *)
Definition to_str (p : Path) : str :=
  match anchor_of p, parts p with
  | Rel, [] => dot
  | Rel, ps => join_sep ps
  | Root, ps => sep :: join_sep ps
  | Root2, ps => sep :: sep :: join_sep ps
  end.

(** [path / segment]: an absolute segment replaces the path. *)
Definition joinpath (p : Path) (segment : str) : Path :=
  let q := of_str segment in
  match anchor_of q with
  | Rel => mkPath (anchor_of p) (parts p ++ parts q)
  | _ => q
  end.

(** [path.parent]: a path without components is its own parent. *)
Definition parent (p : Path) : Path :=
  mkPath (anchor_of p) (removelast (parts p)).

(** [path.absolute()], [cwd] being the components of [os.getcwd()]. *)
Definition absolute (cwd : list str) (p : Path) : Path :=
  match anchor_of p with
  | Rel => mkPath Root (cwd ++ parts p)
  | _ => p
  end.

(** A path holds a NUL character: the operating system rejects it. *)
Definition has_nul (p : Path) : bool :=
  existsb (existsb (N.eqb 0)) (parts p).

(** [path.is_absolute()] *)
Definition is_absolute (p : Path) : bool :=
  match anchor_of p with Rel => false | _ => true end.

(** A component as pathlib produces them: not empty, not a single dot,
    free of slashes. *)
Definition valid_part (x : str) : bool :=
  keep_part x && negb (existsb (N.eqb sep) x).

(** Every component of the path is one pathlib can have produced. *)
Definition well_formed (p : Path) : bool := forallb valid_part (parts p).

End Pathlib.

Notation "p // s" := (Pathlib.joinpath p (lit s))
  (at level 40, left associativity).

(** ** Exceptions and computations *)

Inductive exn :=
| FileNotFoundError | IsADirectoryError | NotADirectoryError
| PermissionError | FileExistsError
| ValueError | UnicodeDecodeError | UnicodeEncodeError | JSONDecodeError.

#[global] Instance exn_eq_dec : EqDecision exn.
Proof. solve_decision. Defined.

(** [isinstance(e, OSError)]; [IOError] is an alias of [OSError]. *)
Definition is_OSError (e : exn) : bool :=
  match e with
  | FileNotFoundError | IsADirectoryError | NotADirectoryError
  | PermissionError | FileExistsError => true
  | _ => false
  end.

Inductive result (A : Type) := Ok (a : A) | Raise (e : exn).
Arguments Ok {A} a.
Arguments Raise {A} e.

(** ** The file system *)

Inductive node :=
| Dir
| File (readable writable : bool) (data : list byte).

Record world := mkWorld {
  cwd : list str;
  files : gmap (list str) node
}.

(** A computation reads and updates the world; an exception leaves the
    world as it was when it was raised. *)
Definition io (A : Type) : Type := world -> result A * world.

#[global] Instance io_ret : MRet io := fun A a w => (Ok a, w).
#[global] Instance io_bind : MBind io := fun A B k m w =>
  match m w with
  | (Ok a, w') => k a w'
  | (Raise e, w') => (Raise e, w')
  end.

Definition raise {A} (e : exn) : io A := fun w => (Raise e, w).

(** [try: body  except <handled>: handler] *)
Definition try_except {A} (body : io A) (handled : exn -> bool)
    (handler : exn -> io A) : io A := fun w =>
  match body w with
  | (Raise e, w') => if handled e then handler e w' else (Raise e, w')
  | r => r
  end.

(** A computation that only inspects the world. *)
Definition inspect {A} (f : world -> result A) : io A := fun w => (f w, w).

Module Os.

(** The absolute component list the kernel resolves a path to. *)
Definition resolve (w : world) (p : Path) : list str :=
  match anchor_of p with
  | Rel => cwd w ++ parts p
  | _ => parts p
  end.

(** The root directory always exists. *)
Definition node_at (w : world) (k : list str) : option node :=
  match k with
  | [] => Some Dir
  | _ => files w !! k
  end.

Definition set_node (w : world) (k : list str) (n : node) : world :=
  mkWorld (cwd w) (<[k := n]> (files w)).

(** [os.stat(path)] *)
Definition stat (w : world) (p : Path) : result node :=
  if Pathlib.has_nul p then Raise ValueError
  else match node_at w (resolve w p) with
       | Some n => Ok n
       | None => Raise FileNotFoundError
       end.

(** [path.exists()] (Python 3.8 and later): every failure of [stat] that
    concerns the path itself, an embedded NUL included, reads as false. *)
Definition exists_ (w : world) (p : Path) : bool :=
  match stat w p with Ok _ => true | Raise _ => false end.

Definition is_dir (w : world) (p : Path) : bool :=
  match stat w p with Ok Dir => true | _ => false end.

(** [open(path, "rb").read()] *)
Definition read_bytes (w : world) (p : Path) : result (list byte) :=
  match stat w p with
  | Ok Dir => Raise IsADirectoryError
  | Ok (File r _ data) => if r then Ok data else Raise PermissionError
  | Raise e => Raise e
  end.

(** [with open(path, "r") as f: f.read()] *)
Definition read_text (w : world) (p : Path) : result str :=
  match read_bytes w p with
  | Ok data =>
      match Text.decode data with
      | Some s => Ok (Text.universal_newlines s)
      | None => Raise UnicodeDecodeError
      end
  | Raise e => Raise e
  end.

(** [open(path, "w")]: truncates an existing writable file, creates a
    missing one inside an existing directory. *)
Definition open_w (p : Path) : io unit := fun w =>
  if Pathlib.has_nul p then (Raise ValueError, w)
  else
    let k := resolve w p in
    match node_at w k with
    | Some Dir => (Raise IsADirectoryError, w)
    | Some (File r wr _) =>
        if wr then (Ok tt, set_node w k (File r wr []))
        else (Raise PermissionError, w)
    | None =>
        match node_at w (removelast k) with
        | Some Dir => (Ok tt, set_node w k (File true true []))
        | Some (File _ _ _) => (Raise NotADirectoryError, w)
        | None => (Raise FileNotFoundError, w)
        end
    end.

(** [f.write(s)] on the file just opened for writing at [p], followed
    by the close at the end of the [with] block. *)
Definition write (p : Path) (s : str) : io unit := fun w =>
  match Text.encode s with
  | None => (Raise UnicodeEncodeError, w)
  | Some data =>
      let k := resolve w p in
      match node_at w k with
      | Some (File r wr _) => (Ok tt, set_node w k (File r wr data))
      | _ => (Ok tt, w)
      end
  end.

(** [with open(path, "w") as f: f.write(s)] *)
Definition write_text (p : Path) (s : str) : io unit :=
  open_w p ;; write p s.

(** [os.mkdir(path)] *)
Definition mkdir (p : Path) : io unit := fun w =>
  if Pathlib.has_nul p then (Raise ValueError, w)
  else
    let k := resolve w p in
    match node_at w k with
    | Some _ => (Raise FileExistsError, w)
    | None =>
        match node_at w (removelast k) with
        | Some Dir => (Ok tt, set_node w k Dir)
        | Some (File _ _ _) => (Raise NotADirectoryError, w)
        | None => (Raise FileNotFoundError, w)
        end
    end.

(** [Path.mkdir(parents=False, exist_ok=True)]: an [OSError] other than
    [FileNotFoundError] is swallowed when the path is a directory. *)
Definition mkdir_exist_ok (p : Path) : io unit :=
  try_except (mkdir p)
    (fun e => is_OSError e && negb (bool_decide (e = FileNotFoundError)))
    (fun e w => if is_dir w p then (Ok tt, w) else (Raise e, w)).

(** [Path.mkdir(parents=True, exist_ok=True)] for the path with anchor
    [a] and components [rev rparts]: on [FileNotFoundError] the parent
    is created first, unless the path is its own parent. *)
Fixpoint mkdir_parents (a : anchor) (rparts : list str) : io unit :=
  let p := mkPath a (rev rparts) in
  try_except (mkdir p) is_OSError
    (fun e =>
       if bool_decide (e = FileNotFoundError) then
         match rparts with
         | [] => raise e
         | _ :: up => mkdir_parents a up ;; mkdir_exist_ok p
         end
       else fun w => if is_dir w p then (Ok tt, w) else (Raise e, w)).

Definition makedirs (p : Path) : io unit :=
  mkdir_parents (anchor_of p) (rev (parts p)).

(** *** Observations on a world *)

(** [open(p, "w")] would succeed. *)
Definition can_open_w (w : world) (p : Path) : bool :=
  negb (Pathlib.has_nul p) &&
  match node_at w (resolve w p) with
  | Some Dir => false
  | Some (File _ wr _) => wr
  | None =>
      match node_at w (removelast (resolve w p)) with
      | Some Dir => true
      | _ => false
      end
  end.

(** The world once [data] has been written to [p]: an existing file keeps
    its permissions, a new one is readable and writable. *)
Definition after_write (w : world) (p : Path) (data : list byte) : world :=
  match node_at w (resolve w p) with
  | Some (File r wr _) => set_node w (resolve w p) (File r wr data)
  | _ => set_node w (resolve w p) (File true true data)
  end.

(** [p] names a regular file that may be read. *)
Definition readable (w : world) (p : Path) : bool :=
  match stat w p with
  | Ok (File r _ _) => r
  | _ => false
  end.

(** A computation that leaves the working directory where it is. *)
Definition keeps_cwd {A} (m : io A) : Prop :=
  forall w r w', m w = (r, w') -> cwd w' = cwd w.

End Os.

(** ** JSON ([json.loads] and [json.dumps])

    The grammar CPython's decoder accepts: RFC 8259 plus the constants
    [NaN], [Infinity] and [-Infinity]. A number keeps the text that was
    matched. An object is the list of its members in insertion order, a
    repeated key keeping its first position and its last value, as a
    Python [dict] does. Interpreter limits (recursion depth, integer
    length) are not modelled. *)

Module Json.

Inductive value :=
| JNull
| JBool (b : bool)
| JNumber (literal : str)
| JConst (name : str)
| JString (s : str)
| JArray (items : list value)
| JObject (members : list (str * value)).

(** [d[k] = v] *)
Fixpoint dict_set (k : str) (v : value) (d : list (str * value))
    : list (str * value) :=
  match d with
  | [] => [(k, v)]
  | (k', v') :: rest =>
      if bool_decide (k' = k) then (k', v) :: rest
      else (k', v') :: dict_set k v rest
  end.

(** [k in d] *)
Definition dict_has (k : str) (d : list (str * value)) : bool :=
  existsb (fun kv => bool_decide (kv.1 = k)) d.

Definition is_ws (c : N) : bool :=
  ((c =? 32) || (c =? 9) || (c =? 10) || (c =? 13))%N.

Fixpoint skip_ws (s : str) : str :=
  match s with
  | c :: r => if is_ws c then skip_ws r else s
  | [] => []
  end.

Fixpoint strip_prefix (p s : str) : option str :=
  match p, s with
  | [], _ => Some s
  | a :: p', b :: s' => if (a =? b)%N then strip_prefix p' s' else None
  | _ :: _, [] => None
  end.

Definition is_digit (c : N) : bool := ((48 <=? c) && (c <=? 57))%N.

Definition hex_digit (c : N) : option N :=
  if is_digit c then Some (c - 48)%N
  else if ((97 <=? c) && (c <=? 102))%N then Some (c - 87)%N
  else if ((65 <=? c) && (c <=? 70))%N then Some (c - 55)%N
  else None.

Definition hex4 (a b c d : N) : option N :=
  x ← hex_digit a; y ← hex_digit b; z ← hex_digit c; t ← hex_digit d;
  Some (((x * 16 + y) * 16 + z) * 16 + t)%N.

Definition simple_escape (c : N) : option N :=
  if (c =? 34)%N then Some 34%N            (* quote *)
  else if (c =? 92)%N then Some 92%N       (* backslash *)
  else if (c =? 47)%N then Some 47%N       (* slash *)
  else if (c =? 98)%N then Some 8%N        (* b: backspace *)
  else if (c =? 102)%N then Some 12%N      (* f: form feed *)
  else if (c =? 110)%N then Some 10%N      (* n: line feed *)
  else if (c =? 114)%N then Some 13%N      (* r: carriage return *)
  else if (c =? 116)%N then Some 9%N       (* t: tab *)
  else None.

(** The body of a string, after its opening quote, up to and including
    the closing quote (strict mode: no raw control characters). *)
Fixpoint scanstring (s : str) : option (str * str) :=
  match s with
  | [] => None
  | c :: r =>
      if (c =? 34)%N then Some ([], r)
      else if (c <? 32)%N then None
      else if (c =? 92)%N then
        match r with
        | e :: r1 =>
            if (e =? 117)%N then
              match r1 with
              | h1 :: h2 :: h3 :: h4 :: r2 =>
                  u ← hex4 h1 h2 h3 h4;
                  let lone := '(t, rest) ← scanstring r2; Some (u :: t, rest) in
                  if ((0xD800 <=? u) && (u <=? 0xDBFF))%N then
                    match r2 with
                    | b :: e2 :: g1 :: g2 :: g3 :: g4 :: r3 =>
                        if ((b =? 92) && (e2 =? 117))%N then
                          match hex4 g1 g2 g3 g4 with
                          | Some u2 =>
                              if ((0xDC00 <=? u2) && (u2 <=? 0xDFFF))%N then
                                '(t, rest) ← scanstring r3;
                                Some ((0x10000 + (u - 0xD800) * 1024
                                       + (u2 - 0xDC00))%N :: t, rest)
                              else lone
                          | None => None
                          end
                        else lone
                    | _ => lone
                    end
                  else lone
              | _ => None
              end
            else
              x ← simple_escape e;
              '(t, rest) ← scanstring r1; Some (x :: t, rest)
        | [] => None
        end
      else '(t, rest) ← scanstring r; Some (c :: t, rest)
  end.

Fixpoint span_digits (s : str) : str * str :=
  match s with
  | c :: r =>
      if is_digit c then let '(ds, rest) := span_digits r in (c :: ds, rest)
      else ([], s)
  | [] => ([], [])
  end.

(** A number: an optional minus, then a zero or a non-zero digit and
    further digits, then an optional fraction (a point and digits) and an
    optional exponent (e or E, an optional sign, digits). A point or an
    exponent mark that no digit follows is left unread. *)
Definition match_number (s : str) : option (str * str) :=
  let '(sign, s1) :=
    match s with
    | c :: r => if (c =? 45)%N then ([45%N], r) else ([], s)
    | [] => ([], s)
    end in
  match s1 with
  | d :: r1 =>
      if is_digit d then
        let '(int_part, s2) :=
          if (d =? 48)%N then ([d], r1)
          else let '(ds, rest) := span_digits r1 in (d :: ds, rest) in
        let '(frac, s3) :=
          match s2 with
          | p :: r2 =>
              if (p =? 46)%N then
                match span_digits r2 with
                | ([], _) => ([], s2)
                | (ds, rest) => (p :: ds, rest)
                end
              else ([], s2)
          | [] => ([], s2)
          end in
        let '(exp, s4) :=
          match s3 with
          | e :: r3 =>
              if ((e =? 101) || (e =? 69))%N then
                let '(sg, r4) :=
                  match r3 with
                  | c :: r' =>
                      if ((c =? 43) || (c =? 45))%N then ([c], r') else ([], r3)
                  | [] => ([], r3)
                  end in
                match span_digits r4 with
                | ([], _) => ([], s3)
                | (ds, rest) => (e :: sg ++ ds, rest)
                end
              else ([], s3)
          | [] => ([], s3)
          end in
        Some (sign ++ int_part ++ frac ++ exp, s4)
      else None
  | [] => None
  end.

Definition scan_word (w : string) (v : value) (s : str)
    : option (value * str) :=
  r ← strip_prefix (lit w) s; Some (v, r).

Definition scan_atom (s : str) : option (value * str) :=
  match s with
  | c :: _ =>
      if (c =? 110)%N then scan_word "null" JNull s
      else if (c =? 116)%N then scan_word "true" (JBool true) s
      else if (c =? 102)%N then scan_word "false" (JBool false) s
      else if (c =? 78)%N then scan_word "NaN" (JConst (lit "NaN")) s
      else if (c =? 73)%N then scan_word "Infinity" (JConst (lit "Infinity")) s
      else
        match strip_prefix (lit "-Infinity") s with
        | Some r => Some (JConst (lit "-Infinity"), r)
        | None => '(l, r) ← match_number s; Some (JNumber l, r)
        end
  | [] => None
  end.

(** [scan_once] and the loops of [JSONArray] and [JSONObject]; each call
    spends one unit of [fuel]. *)
Fixpoint scan_once (fuel : nat) (s : str) : option (value * str) :=
  match fuel with
  | O => None
  | S n =>
      match s with
      | c :: r =>
          if (c =? 34)%N then
            '(t, rest) ← scanstring r; Some (JString t, rest)
          else if (c =? 123)%N then
            match skip_ws r with
            | d :: r' =>
                if (d =? 125)%N then Some (JObject [], r')
                else '(ms, rest) ← scan_members n (d :: r') [];
                     Some (JObject ms, rest)
            | [] => None
            end
          else if (c =? 91)%N then
            match skip_ws r with
            | d :: r' =>
                if (d =? 93)%N then Some (JArray [], r')
                else '(vs, rest) ← scan_items n (d :: r');
                     Some (JArray vs, rest)
            | [] => None
            end
          else scan_atom s
      | [] => None
      end
  end
with scan_members (fuel : nat) (s : str) (acc : list (str * value))
    : option (list (str * value) * str) :=
  match fuel with
  | O => None
  | S n =>
      match s with
      | q :: r =>
          if (q =? 34)%N then
            '(k, r1) ← scanstring r;
            match skip_ws r1 with
            | colon :: r2 =>
                if (colon =? 58)%N then
                  '(v, r3) ← scan_once n (skip_ws r2);
                  let acc' := dict_set k v acc in
                  match skip_ws r3 with
                  | d :: r4 =>
                      if (d =? 125)%N then Some (acc', r4)
                      else if (d =? 44)%N then scan_members n (skip_ws r4) acc'
                      else None
                  | [] => None
                  end
                else None
            | [] => None
            end
          else None
      | [] => None
      end
  end
with scan_items (fuel : nat) (s : str) : option (list value * str) :=
  match fuel with
  | O => None
  | S n =>
      '(v, r1) ← scan_once n s;
      match skip_ws r1 with
      | d :: r2 =>
          if (d =? 93)%N then Some ([v], r2)
          else if (d =? 44)%N then
            '(vs, rest) ← scan_items n (skip_ws r2); Some (v :: vs, rest)
          else None
      | [] => None
      end
  end.

(** [json.loads(s)]; [None] stands for [json.JSONDecodeError]. This is
    the grammar the decoder accepts. The limits of the interpreter are no
    part of it: on text nested deeper than the recursion limit allows, or
    holding an integer literal longer than the digit limit of [int], the
    decoder raises [RecursionError] or [ValueError]. *)
Definition loads (s : str) : option value :=
  match s with
  | 0xFEFF%N :: _ => None
  | _ =>
      '(v, rest) ← scan_once (2 * length s + 2) (skip_ws s);
      match skip_ws rest with
      | [] => Some v
      | _ :: _ => None
      end
  end.

(** *** Serialisation, [ensure_ascii=True] *)

Definition hex_char (n : N) : N :=
  if (n <? 10)%N then (48 + n)%N else (87 + n)%N.

Definition u_escape (c : N) : str :=
  [92; 117; hex_char (c / 4096); hex_char ((c / 256) mod 16);
   hex_char ((c / 16) mod 16); hex_char (c mod 16)]%N.

Definition escape_char (c : N) : str :=
  if (c =? 34)%N then [92; 34]%N
  else if (c =? 92)%N then [92; 92]%N
  else if (c =? 10)%N then lit "\n"
  else if (c =? 13)%N then lit "\r"
  else if (c =? 9)%N then lit "\t"
  else if (c =? 8)%N then lit "\b"
  else if (c =? 12)%N then lit "\f"
  else if ((32 <=? c) && (c <? 127))%N then [c]
  else if (c <? 0x10000)%N then u_escape c
  else
    let v := (c - 0x10000)%N in
    u_escape (0xD800 + v / 1024) ++ u_escape (0xDC00 + v mod 1024).

Definition quote (s : str) : str :=
  34%N :: flat_map escape_char s ++ [34%N].

Definition newline_indent (width level : nat) : str :=
  10%N :: repeat 32%N (width * level).

Fixpoint join_with (d : str) (xs : list str) : str :=
  match xs with
  | [] => []
  | [x] => x
  | x :: rest => x ++ d ++ join_with d rest
  end.

(** [json.dumps(v, indent=width)] at nesting depth [level]. *)
Fixpoint dumps_at (width level : nat) (v : value) : str :=
  match v with
  | JNull => lit "null"
  | JBool true => lit "true"
  | JBool false => lit "false"
  | JNumber l => l
  | JConst n => n
  | JString s => quote s
  | JArray [] => lit "[]"
  | JArray items =>
      91%N :: newline_indent width (S level)
      ++ join_with (44%N :: newline_indent width (S level))
           (map (dumps_at width (S level)) items)
      ++ newline_indent width level ++ [93%N]
  | JObject [] => lit "{}"
  | JObject members =>
      123%N :: newline_indent width (S level)
      ++ join_with (44%N :: newline_indent width (S level))
           (map (fun kv => quote kv.1 ++ lit ": "
                           ++ dumps_at width (S level) kv.2) members)
      ++ newline_indent width level ++ [125%N]
  end.

Definition dumps (indent : nat) (v : value) : str := dumps_at indent 0 v.

End Json.
Import Json.

(** ** [config.py] *)

Record Config := mkConfig { config_path : Path; contents : Json.value }.

Module ConfigStore.

(** [{"tickers": []}] *)
Definition default_contents : Json.value :=
  JObject [(lit "tickers", JArray [])].

(** [with open(path, "r") as f: json.load(f)] *)
Definition json_load (w : world) (p : Path) : result Json.value :=
  match Os.read_text w p with
  | Ok s =>
      match Json.loads s with
      | Some v => Ok v
      | None => Raise JSONDecodeError
      end
  | Raise e => Raise e
  end.

(** [with open(path, "w") as f: json.dump(v, f, indent=2)] *)
Definition json_dump (v : Json.value) (p : Path) : io unit :=
  Os.write_text p (Json.dumps 2 v).

(** [except (FileNotFoundError, IOError)] *)
Definition pointer_handled (e : exn) : bool := is_OSError e.

(** [except (FileNotFoundError, IOError, json.JSONDecodeError)] *)
Definition load_handled (e : exn) : bool :=
  is_OSError e || bool_decide (e = JSONDecodeError).

Section WithHome.

(** The value of [Path.home()]. *)
Variable home : Path.

Definition CONFIG_DIR : Path := home // ".config" // "notes-app".
Definition LAST_CONFIG_FILE : Path := CONFIG_DIR // ".last_config".
Definition DEFAULT_DATA_FILE_NAME : str := lit "scn_data.json".
Definition DEFAULT_DATA_FILE : Path :=
  Pathlib.joinpath CONFIG_DIR DEFAULT_DATA_FILE_NAME.

(** The statement run when the module is imported:
    [CONFIG_DIR.mkdir(parents=True, exist_ok=True)]. *)
Definition import_module : io unit := Os.makedirs CONFIG_DIR.

Definition save_last_config (file_path : Path) : io unit :=
  Os.makedirs (Pathlib.parent LAST_CONFIG_FILE) ;;
  Os.open_w LAST_CONFIG_FILE ;;
  ((fun w =>
      Os.write LAST_CONFIG_FILE
        (Pathlib.to_str (Pathlib.absolute (cwd w) file_path)) w) : io unit).

(** The first half of [load_last_config]: the value of the variable
    [config_file_to_load] when the pointer has been examined. *)
Definition config_file_to_load : io Path := fun w =>
  if Os.exists_ w LAST_CONFIG_FILE then
    try_except
      (inspect (fun w =>
         match Os.read_text w LAST_CONFIG_FILE with
         | Ok s =>
             let last_config_path := Pathlib.of_str (Text.strip s) in
             if Os.exists_ w last_config_path
             then Ok last_config_path
             else Ok DEFAULT_DATA_FILE
         | Raise e => Raise e
         end))
      pointer_handled
      (fun _ => mret DEFAULT_DATA_FILE) w
  else (Ok DEFAULT_DATA_FILE, w).

(** The body of both [try] blocks that read a data file. *)
Definition read_config (p : Path) : io Config :=
  inspect (fun w =>
    match json_load w p with
    | Ok v => Ok (mkConfig p v)
    | Raise e => Raise e
    end).

(** Both places that write and return the fresh default. *)
Definition create_default : io Config :=
  json_dump default_contents DEFAULT_DATA_FILE ;;
  mret (mkConfig DEFAULT_DATA_FILE default_contents).

(** The second half of [load_last_config]: the file chosen is loaded,
    with its fallbacks. *)
Definition load_from (target : Path) : io Config :=
  try_except (read_config target) load_handled
    (fun _ =>
       if bool_decide (target = DEFAULT_DATA_FILE) then create_default
       else
         try_except (read_config DEFAULT_DATA_FILE) load_handled
           (fun _ => create_default)).

Definition load_last_config : io Config :=
  target ← config_file_to_load;
  load_from target.

Definition create_default_config_if_not_exists : io unit := fun w =>
  if negb (Os.exists_ w DEFAULT_DATA_FILE)
  then json_dump default_contents DEFAULT_DATA_FILE w
  else (Ok tt, w).

End WithHome.

(** *** Notions the properties are stated with *)

(** The bytes [json.dump({"tickers": []}, f, indent=2)] leaves in a file. *)
Definition default_bytes : list byte :=
  default (@nil byte) (Text.encode (Json.dumps 2 default_contents)).

(** The contents hold a [tickers] key. *)
Definition has_tickers (v : Json.value) : bool :=
  match v with
  | JObject members => Json.dict_has (lit "tickers") members
  | _ => false
  end.

(** A data file cannot be loaded for one of the reasons the handlers of
    [load_last_config] name: the file is missing or cannot be read (an
    [OSError]), or its text is not JSON. *)
Inductive load_failure (w : world) (p : Path) : Prop :=
| io_failure e :
    Os.read_bytes w p = Raise e -> is_OSError e = true -> load_failure w p
| malformed_json s :
    Os.read_text w p = Ok s -> Json.loads s = None -> load_failure w p.

End ConfigStore.

(** ** [yf_api.py] *)

Inductive Market := STO | USA | ITA | FRA.

Module TickerLookup.

(** [market.value] *)
Definition value (m : Market) : str :=
  match m with
  | STO => lit ".ST"
  | USA => []
  | ITA => lit ".MI"
  | FRA => lit ".PA"
  end.

(** [list(Market)]: an [Enum] iterates in definition order. *)
Definition markets : list Market := [STO; USA; ITA; FRA].

(** [isinstance(e, ValueError)]: the Unicode and JSON errors derive
    from [ValueError]. *)
Definition is_ValueError (e : exn) : bool :=
  match e with
  | ValueError | UnicodeDecodeError | UnicodeEncodeError
  | JSONDecodeError => true
  | _ => false
  end.

(** What [yf.Ticker(symbol).info.get("longName", None)] comes to:
    the field (absent or null reads as [None]) or an exception. *)
Inductive lookup :=
| Info (longName : option str)
| Throws (e : exn).

(** What the process has done so far: the lines printed and the
    symbols handed to [yf.Ticker], oldest first. *)
Record trace := mkTrace { stdout : list str; calls : list str }.

Definition start : trace := mkTrace [] [].

(** A lookup that makes the loop go on: no name, or a [ValueError]. *)
Definition no_match (o : lookup) : bool :=
  match o with
  | Info None => true
  | Info (Some _) => false
  | Throws e => is_ValueError e
  end.

Section WithProvider.

(** [str.upper] *)
Variable upper : str -> str.

(** The remote provider: the answer to a lookup may depend on the
    number of lookups made before it and on the symbol. *)
Variable provider : nat -> str -> lookup.

(** The [for] loop over the markets still to be tried. *)
Fixpoint try_markets (ms : list Market) (ticker : str) (t : trace)
    : result (option str) * trace :=
  match ms with
  | [] => (Ok None, t)
  | market :: rest =>
      let ticker_extended := upper ticker ++ value market in
      let t' := mkTrace (stdout t ++ [ticker_extended])
                        (calls t ++ [ticker_extended]) in
      match provider (length (calls t)) ticker_extended with
      | Info (Some name) => (Ok (Some name), t')
      | Info None => try_markets rest ticker t'
      | Throws e =>
          if is_ValueError e then try_markets rest ticker t'
          else (Raise e, t')
      end
  end.

Definition get_company_name_from_ticker (ticker : str) (t : trace)
    : result (option str) * trace :=
  try_markets markets ticker t.

(** The symbol tried for a market. *)
Definition symbol (ticker : str) (m : Market) : str :=
  upper ticker ++ value m.

(** The trace [t] once the markets [ms] have all been tried. *)
Definition extend (t : trace) (ticker : str) (ms : list Market) : trace :=
  mkTrace (stdout t ++ map (symbol ticker) ms)
          (calls t ++ map (symbol ticker) ms).

(** The answer to the [i]-th lookup of a run that starts in [t], when
    that lookup is for market [m]. *)
Definition answer (t : trace) (ticker : str) (i : nat) (m : Market) : lookup :=
  provider (length (calls t) + i) (symbol ticker m).

End WithProvider.

(** The [Close] column of the frame [stock.history(...)] returns. *)
Definition frame := list float.

Record returns := mkReturns { one_month : option float; ytd : option float }.

(** [(latest - start) / start] when the frame is not empty and has
    more than one row, else the initial [None]. *)
Definition period_return (data : frame) : option float :=
  if negb (bool_decide (data = [])) && (1 <? length data)%nat then
    let start := List.hd nan data in        (* data["Close"].iloc[0] *)
    let latest := List.last data nan in     (* data["Close"].iloc[-1] *)
    Some ((latest - start) / start)%float
  else None.

Section WithHistory.

(** [yf.Ticker(ticker).history(period=..., interval=...)] *)
Variable history : str -> str -> str -> frame.

Definition get_historical_returns (ticker : str) : returns :=
  let ytd_data := history ticker (lit "ytd") (lit "1d") in
  let one_month_data := history ticker (lit "1mo") (lit "1d") in
  mkReturns (period_return one_month_data) (period_return ytd_data).

End WithHistory.

(** Upper-casing of the ASCII letters, for the samples. *)
Definition ascii_upper (s : str) : str :=
  map (fun c => if ((97 <=? c) && (c <=? 122))%N then (c - 32)%N else c) s.

End TickerLookup.

(** ** [app.py] *)

Module App.

(** How a run of the program can stop short: an exception of the file
    system or of the provider, a Python error of the dynamic kind, the
    end of standard input, or [sys.exit(code)]. *)
Inductive fault :=
| Raised (e : exn)
| AttributeError
| TypeError
| EOFError
| SystemExit (code : Z).

Inductive outcome (A : Type) := Done (a : A) | Stop (f : fault).
Arguments Done {A} a.
Arguments Stop {A} f.

(** The process: the file system, the lines written by [print] and the
    symbols looked up, and the lines still to be read from standard input.
    Standard output takes every line ([print] does not raise). The records
    of [logging], which [setup_logging] sends to the same stream with a
    time stamp, are not kept: [logging] reports its own failures on
    standard error and raises nothing. No signal is delivered during the
    runs described here. *)
Record process := mkProcess {
  fs : world;
  history : TickerLookup.trace;
  stdin : list str
}.

Definition prog (A : Type) : Type := process -> outcome A * process.

#[global] Instance prog_ret : MRet prog := fun A a p => (Done a, p).
#[global] Instance prog_bind : MBind prog := fun A B k m p =>
  match m p with
  | (Done a, p') => k a p'
  | (Stop f, p') => (Stop f, p')
  end.

Definition stop {A} (f : fault) : prog A := fun p => (Stop f, p).

(** A computation on the file system, run inside the process. *)
Definition on_files {A} (m : io A) : prog A := fun p =>
  match m (fs p) with
  | (Ok a, w) => (Done a, mkProcess w (history p) (stdin p))
  | (Raise e, w) => (Stop (Raised e), mkProcess w (history p) (stdin p))
  end.

(** A lookup, run inside the process. *)
Definition on_provider {A}
    (m : TickerLookup.trace -> result A * TickerLookup.trace) : prog A :=
  fun p =>
    match m (history p) with
    | (Ok a, t) => (Done a, mkProcess (fs p) t (stdin p))
    | (Raise e, t) => (Stop (Raised e), mkProcess (fs p) t (stdin p))
    end.

(** [print(line)] *)
Definition print (line : str) : prog unit := fun p =>
  (Done tt,
   mkProcess (fs p)
     (TickerLookup.mkTrace (TickerLookup.stdout (history p) ++ [line])
                           (TickerLookup.calls (history p)))
     (stdin p)).

(** [input()]: the next line of standard input, [EOFError] at its end. *)
Definition input : prog str := fun p =>
  match stdin p with
  | line :: rest => (Done line, mkProcess (fs p) (history p) rest)
  | [] => (Stop EOFError, p)
  end.

Definition question : str :=
  lit "Config directory does not exist, do you want to create it? (y/n)".

Definition goodbye : str :=
  lit "Exiting application. " ++ [10%N] ++
  lit "Please create the config directory manually or restart the program.".

(** [d.get(k)] on the members of an object. *)
Fixpoint dict_get (k : str) (d : list (str * Json.value)) : option Json.value :=
  match d with
  | [] => None
  | (k', v) :: rest => if bool_decide (k' = k) then Some v else dict_get k rest
  end.

(** [config.contents.get("tickers", [])]: only a [dict] has [get]. *)
Definition get_tickers (contents : Json.value) : outcome Json.value :=
  match contents with
  | JObject members =>
      Done (default (JArray []) (dict_get (lit "tickers") members))
  | _ => Stop AttributeError
  end.

(** The values a [for] loop over [x] visits: the items of a list, the
    characters of a string, the keys of a dict; nothing else that JSON
    gives can be iterated. *)
Definition iterate (x : Json.value) : outcome (list Json.value) :=
  match x with
  | JArray items => Done items
  | JString s => Done (map (fun c => JString [c]) s)
  | JObject members => Done (map (fun kv => JString kv.1) members)
  | _ => Stop TypeError
  end.

Section WithEnvironment.

Variable home : Path.

(** [str.upper] and [str.lower] *)
Variable upper lower : str -> str.

Variable provider : nat -> str -> TickerLookup.lookup.

(** The first statement of [initial_setup]:
    [if not CONFIG_DIR.exists(): ...]. *)
Definition ask_to_create : prog unit := fun p =>
  if negb (Os.exists_ (fs p) (ConfigStore.CONFIG_DIR home)) then
    (print question ;;
     line ← input;
     if bool_decide (lower (Text.strip line) = lit "y")
     then on_files (Os.makedirs (ConfigStore.CONFIG_DIR home))
     else print goodbye ;; stop (SystemExit 0)) p
  else (Done tt, p).

Definition initial_setup : prog unit :=
  ask_to_create ;;
  on_files (ConfigStore.create_default_config_if_not_exists home).

(** The body of the [for] loop of [main], for the values still to be
    visited: [ticker.upper()] exists for a string only. *)
Fixpoint for_each_ticker (items : list Json.value) : prog unit :=
  match items with
  | [] => mret tt
  | ticker :: rest =>
      match ticker with
      | JString s =>
          on_provider
            (TickerLookup.get_company_name_from_ticker upper provider s) ;;
          for_each_ticker rest
      | _ => stop AttributeError
      end
  end.

(** [for ticker in config.contents.get("tickers", []): ...] *)
Definition for_statement (config : Config) : prog unit :=
  tickers ← (fun p => (get_tickers (contents config), p));
  items ← (fun p => (iterate tickers, p));
  for_each_ticker items.

(** [setup_logging()] configures the root logger and logs one record;
    [setup_signal_handlers(config)] installs the two handlers. Neither
    touches the file system, the lines of [print], the lookups or standard
    input, so neither shows in the process as it is described here. *)
Definition main : prog unit :=
  initial_setup ;;
  config ← on_files (ConfigStore.load_last_config home);
  for_statement config ;;
  on_files (ConfigStore.save_last_config home (config_path config)).

(** [python app.py]: the import of [config] runs first. *)
Definition run : prog unit :=
  on_files (ConfigStore.import_module home) ;; main.

End WithEnvironment.

(** A computation that reads nothing from standard input and neither
    meets its end nor exits. *)
Definition quiet {A} (m : prog A) : Prop :=
  forall p r p', m p = (r, p') ->
    stdin p' = stdin p /\ r <> Stop EOFError /\
    forall code, r <> Stop (SystemExit code).

(** A computation that leaves the file system and standard input as
    they are. *)
Definition keeps_files {A} (m : prog A) : Prop :=
  forall p r p', m p = (r, p') -> fs p' = fs p /\ stdin p' = stdin p.

End App.

(** ** Notions for the further properties *)

Module Frame.

(** From [w] to [w'] the working directory stays, every node stays as it
    is, and what is new is a directory. *)
Definition only_adds_dirs (w w' : world) : Prop :=
  cwd w' = cwd w /\
  forall k,
    match Os.node_at w k with
    | Some n => Os.node_at w' k = Some n
    | None => Os.node_at w' k = None \/ Os.node_at w' k = Some Dir
    end.

(** From [w] to [w'] the working directory stays and so does every node
    that is not at [key]. *)
Definition same_except (key : list str) (w w' : world) : Prop :=
  cwd w' = cwd w /\
  forall k, k <> key -> Os.node_at w' k = Os.node_at w k.

(** A computation whose every run only adds directories. *)
Definition adds_dirs {A} (m : io A) : Prop :=
  forall w r w', m w = (r, w') -> only_adds_dirs w w'.

End Frame.

(** *** Sample worlds *)

Module Samples.
Import ConfigStore.

Definition home : Path := Pathlib.of_str (lit "/home/u").
Definition cfg_dir : list str := [lit "home"; lit "u"; lit ".config"; lit "notes-app"].
Definition pointer_key : list str := cfg_dir ++ [lit ".last_config"].
Definition default_key : list str := cfg_dir ++ [lit "scn_data.json"].
Definition custom_key : list str := [lit "home"; lit "u"; lit "custom.json"].

Definition bytes_of (s : str) : list byte :=
  match Text.encode s with Some d => d | None => [] end.
Definition text_file (s : str) : node := File true true (bytes_of s).

Definition dirs : gmap (list str) node :=
  <[cfg_dir := Dir]> (<[ [lit "home"; lit "u"; lit ".config"] := Dir]>
  (<[ [lit "home"; lit "u"] := Dir]> (<[ [lit "home"] := Dir]> ∅))).

Definition mk (fs : gmap (list str) node) : world :=
  mkWorld [lit "home"; lit "u"] fs.

(** Only the directories exist. *)
Definition fresh : world := mk dirs.

(** A default file listing three tickers, no pointer. *)
Definition with_default : world :=
  mk (<[default_key := text_file (jlit "{'tickers': ['AAPL', 'GOOGL', 'MSFT']}")]> dirs).

(** A pointer to an existing custom file. *)
Definition with_custom : world :=
  mk (<[pointer_key := text_file (lit "/home/u/custom.json")]>
      (<[custom_key := text_file (jlit "{'tickers': ['TSLA', 'NVDA']}")]>
       (files with_default))).

Definition sample_tickers : Json.value :=
  JObject [(lit "tickers", JArray [JString (lit "AAPL"); JString (lit "GOOGL");
                                   JString (lit "MSFT")])].

(** The default file holds an object without a [tickers] key. *)
Definition empty_object_default : world :=
  mk (<[default_key := text_file (lit "{}")]> dirs).

(** The default file is read-only and holds text that is not JSON. *)
Definition read_only_invalid_default : world :=
  mk (<[default_key := File true false (bytes_of (lit "{ invalid json }"))]> dirs).

(** The default file holds bytes that are not UTF-8. *)
Definition undecodable_default : world :=
  mk (<[default_key := File true true [xff]]> dirs).

(** The pointer holds the four bytes 00 01 02 03. *)
Definition control_bytes_pointer : world :=
  mk (<[pointer_key := File true true [x00; x01; x02; x03]]> (files with_default)).

(** The pointer holds bytes that are not UTF-8. *)
Definition undecodable_pointer : world :=
  mk (<[pointer_key := File true true [xff; xfe]]> (files with_default)).

(** The pointer names a file that does not exist. *)
Definition dangling_pointer : world :=
  mk (<[pointer_key := text_file (lit "/home/u/missing.json")]> (files with_default)).

(** The pointer names a file whose text is not JSON. *)
Definition invalid_custom : world :=
  mk (<[pointer_key := text_file (lit "/home/u/custom.json")]>
      (<[custom_key := text_file (lit "{ invalid json }")]> (files with_default))).

(** A data file whose name ends in a space, next to the default file. *)
Definition spaced_path : Path :=
  mkPath Root [lit "home"; lit "u"; lit "notes.json "].
Definition with_spaced : world :=
  mk (<[ [lit "home"; lit "u"; lit "notes.json "] :=
           text_file (jlit "{'tickers': ['TSLA']}")]> (files with_default)).

(** The default file holds JSON of another shape. *)
Definition other_shape_default : world :=
  mk (<[default_key := text_file (jlit "{'other': [1, 2]}")]> dirs).

(** No directory below the root exists yet; a data file sits in the
    working directory. *)
Definition bare : world :=
  mkWorld [] (<[ [lit "custom.json"] := text_file (jlit "{'tickers': ['TSLA', 'NVDA']}")]> ∅).

End Samples.

(** *** Further samples *)

Module MoreSamples.

(** A path as [os.fsdecode] gives it for a file name that is not UTF-8:
    the byte 0xE9 has become the lone surrogate U+DCE9. *)
Definition surrogate_path : Path :=
  mkPath Root [lit "home"; lit "u"; [110; 0xDCE9; 46; 106; 115; 111; 110]%N].

(** The default file holds a JSON list. *)
Definition list_default : world :=
  Samples.mk (<[Samples.default_key := Samples.text_file (jlit "['AAPL']")]>
                Samples.dirs).

End MoreSamples.

(** * Properties *)

(** Both sides of an equation between closed terms are run and compared. *)
Ltac evaluate :=
  match goal with
  | |- ?lhs = ?rhs => vm_cast_no_check (@eq_refl _ rhs)
  end.

(** ** The model at work *)

Example strip_newline :
  Text.strip (lit "  /tmp/a b.json" ++ [10%N]) = lit "/tmp/a b.json".
Proof. evaluate. Qed.

Example decode_ascii :
  Text.decode [x2f; x61] = Some (lit "/a").
Proof. evaluate. Qed.

Example decode_invalid : Text.decode [xff; xfe] = None.
Proof. evaluate. Qed.

Example decode_controls :
  Text.decode [x00; x01; x02; x03] = Some [0; 1; 2; 3]%N.
Proof. evaluate. Qed.

Example encode_euro : Text.encode [0x20AC%N] = Some [xe2; x82; xac].
Proof. evaluate. Qed.

Example of_str_abs :
  Pathlib.of_str (lit "/home//u/./a.json/") =
  mkPath Root [lit "home"; lit "u"; lit "a.json"].
Proof. evaluate. Qed.

Example of_str_empty : Pathlib.of_str [] = mkPath Rel [].
Proof. evaluate. Qed.

Example of_str_two_slashes :
  Pathlib.of_str (lit "//srv/x") = mkPath Root2 [lit "srv"; lit "x"].
Proof. evaluate. Qed.

Example to_str_abs :
  Pathlib.to_str (mkPath Root [lit "home"; lit "u"]) = lit "/home/u".
Proof. evaluate. Qed.

Example loads_tickers :
  Json.loads (jlit "{'tickers': ['AAPL', 'GOOGL']}") =
  Some (JObject [(lit "tickers",
                  JArray [JString (lit "AAPL"); JString (lit "GOOGL")])]).
Proof. evaluate. Qed.

Example loads_empty_object : Json.loads (lit "{}") = Some (JObject []).
Proof. evaluate. Qed.

Example loads_invalid : Json.loads (lit "{ invalid json }") = None.
Proof. evaluate. Qed.

Example loads_trailing_comma : Json.loads (lit "[1, 2,]") = None.
Proof. evaluate. Qed.

Example loads_nested :
  Json.loads (jlit " {'a': [1.5e3, true, null, {'a': -0}], 'a': 'x\u00e9\n'} ") =
  Some (JObject [(lit "a", JString [120; 233; 10]%N)]).
Proof. evaluate. Qed.

Example dumps_default :
  Json.dumps 2 (JObject [(lit "tickers", JArray [])]) =
  lit "{" ++ [10%N] ++ jlit "  'tickers': []" ++ [10%N] ++ lit "}".
Proof. evaluate. Qed.

Example load_no_pointer :
  (ConfigStore.load_last_config Samples.home Samples.with_default).1 =
  Ok (mkConfig (ConfigStore.DEFAULT_DATA_FILE Samples.home) Samples.sample_tickers).
Proof. evaluate. Qed.

Example load_custom :
  (ConfigStore.load_last_config Samples.home Samples.with_custom).1 =
  Ok (mkConfig (Pathlib.of_str (lit "/home/u/custom.json"))
        (JObject [(lit "tickers", JArray [JString (lit "TSLA"); JString (lit "NVDA")])])).
Proof. evaluate. Qed.

Example load_creates_default :
  ConfigStore.load_last_config Samples.home Samples.fresh =
  (Ok (mkConfig (ConfigStore.DEFAULT_DATA_FILE Samples.home)
         (ConfigStore.default_contents)),
   Samples.mk (<[Samples.default_key :=
                   Samples.text_file (Json.dumps 2 ConfigStore.default_contents)]>
                 Samples.dirs)).
Proof. evaluate. Qed.

Example company_name_third_suffix :
  TickerLookup.get_company_name_from_ticker TickerLookup.ascii_upper
    (fun n _ => match n with
                | 2%nat => TickerLookup.Info (Some (lit "Apple Inc."))
                | _ => TickerLookup.Info None
                end)
    (lit "aapl") TickerLookup.start =
  (Ok (Some (lit "Apple Inc.")),
   TickerLookup.mkTrace [lit "AAPL.ST"; lit "AAPL"; lit "AAPL.MI"]
                        [lit "AAPL.ST"; lit "AAPL"; lit "AAPL.MI"]).
Proof. evaluate. Qed.

(** A [longName] that is the empty string is not [None]: it is returned
    as the name, at the first market. *)
Example company_name_empty_string :
  TickerLookup.get_company_name_from_ticker TickerLookup.ascii_upper
    (fun _ _ => TickerLookup.Info (Some [])) (lit "aapl") TickerLookup.start =
  (Ok (Some []), TickerLookup.mkTrace [lit "AAPL.ST"] [lit "AAPL.ST"]).
Proof. evaluate. Qed.

(** ** Ticker lookup *)

Module TickerLookupFacts.
Import TickerLookup.

Section WithProvider.
Variable upper : str -> str.
Variable provider : nat -> str -> lookup.

Local Abbreviation extend := (TickerLookup.extend upper).
Local Abbreviation answer := (TickerLookup.answer upper provider).

Lemma extend_nil t ticker : extend t ticker [] = t.
Proof. destruct t. unfold extend. simpl. by rewrite !app_nil_r. Qed.

Lemma extend_cons t ticker m ms :
  extend t ticker (m :: ms) = extend (extend t ticker [m]) ticker ms.
Proof. unfold extend. simpl. by rewrite <- !app_assoc. Qed.

Lemma try_markets_step ms ticker t m :
  try_markets upper provider (m :: ms) ticker t =
  match answer t ticker 0 m with
  | Info (Some name) => (Ok (Some name), extend t ticker [m])
  | Info None => try_markets upper provider ms ticker (extend t ticker [m])
  | Throws e =>
      if is_ValueError e
      then try_markets upper provider ms ticker (extend t ticker [m])
      else (Raise e, extend t ticker [m])
  end.
Proof. unfold answer. by rewrite Nat.add_0_r. Qed.

Lemma answer_shift t ticker m i m' :
  answer (extend t ticker [m]) ticker i m' = answer t ticker (S i) m'.
Proof.
  unfold answer, extend. simpl. rewrite length_app. simpl.
  f_equal. lia.
Qed.

(** Markets that give no match are passed over, one lookup each. *)
Lemma try_markets_skip pre :
  forall rest ticker t,
    (forall i m, pre !! i = Some m -> no_match (answer t ticker i m) = true) ->
    try_markets upper provider (pre ++ rest) ticker t =
    try_markets upper provider rest ticker (extend t ticker pre).
Proof.
  induction pre as [|m pre IH]; intros rest ticker t Hpre.
  - by rewrite extend_nil.
  - rewrite <- app_comm_cons, try_markets_step.
    rewrite (extend_cons t ticker m pre).
    pose proof (Hpre 0%nat m eq_refl) as H0.
    assert (Hrest : try_markets upper provider (pre ++ rest) ticker
                      (extend t ticker [m]) =
                    try_markets upper provider rest ticker
                      (extend (extend t ticker [m]) ticker pre)).
    { apply IH. intros i m' Hi. rewrite answer_shift.
      apply (Hpre (S i)). exact Hi. }
    destruct (answer t ticker 0 m) as [[name|]|e]; simpl in H0.
    + discriminate.
    + exact Hrest.
    + rewrite H0. exact Hrest.
Qed.

(** Every lookup of a run is [upper ticker] followed by the suffix of
    the market in turn: the calls made are the symbols of a prefix of
    the markets given. *)
Lemma try_markets_calls ms :
  forall ticker t,
    exists k, (k <= length ms)%nat /\
      (try_markets upper provider ms ticker t).2 = extend t ticker (take k ms).
Proof.
  induction ms as [|m ms IH]; intros ticker t.
  - exists 0%nat. simpl. by rewrite extend_nil.
  - rewrite try_markets_step.
    destruct (IH ticker (extend t ticker [m])) as (k & Hk & Heq).
    assert (Hgo : exists k', (k' <= length (m :: ms))%nat /\
              (try_markets upper provider ms ticker (extend t ticker [m])).2 =
              extend t ticker (take k' (m :: ms))).
    { exists (S k). split; [simpl; lia|].
      rewrite Heq. simpl. symmetry. apply extend_cons. }
    assert (Hstop : forall r : result (option str),
              exists k', (k' <= length (m :: ms))%nat /\
                (r, extend t ticker [m]).2 = extend t ticker (take k' (m :: ms))).
    { intros r. exists 1%nat. split; [simpl; lia|]. simpl. by rewrite take_0. }
    destruct (answer t ticker 0 m) as [[name|]|e]; auto.
    destruct (is_ValueError e); auto.
Qed.

End WithProvider.
End TickerLookupFacts.



(** C7. A period whose series has fewer than two closes gets no return;
    any longer series gets [(last - first) / first], computed on binary64
    floats; the closes [100.0; 110.0] give [0.1]. *)
Theorem historical_returns_simple
    (history : str -> str -> str -> TickerLookup.frame) (ticker : str) :
  let r := TickerLookup.get_historical_returns history ticker in
  let spec (data : TickerLookup.frame) : option float :=
    match data with
    | first :: _ :: _ => Some ((List.last data nan - first) / first)%float
    | _ => None
    end in
  TickerLookup.ytd r = spec (history ticker (lit "ytd") (lit "1d")) /\
  TickerLookup.one_month r = spec (history ticker (lit "1mo") (lit "1d")) /\
  TickerLookup.period_return [100; 110]%float = Some 0.1%float /\
  TickerLookup.period_return [100]%float = None /\
  TickerLookup.period_return [] = None.
Proof.
  assert (H : forall data : TickerLookup.frame,
             TickerLookup.period_return data =
             match data with
             | first :: _ :: _ => Some ((List.last data nan - first) / first)%float
             | _ => None
             end).
  { intros [|a [|b l]]; reflexivity. }
  simpl. rewrite !H. repeat split; reflexivity.
Qed.

(** ** Text: what is written is what is read back *)

Module TextFacts.
Import Text.

Ltac Zify.zify_post_hook ::= Z.to_euclidean_division_equations.

Ltac split_ranges :=
  repeat match goal with
  | |- context [if (?a <? ?b)%N then _ else _] => destruct (N.ltb_spec a b)
  | |- context [if (?a <=? ?b)%N && _ then _ else _] =>
      destruct (N.leb_spec a b); cbn [andb]
  end.

Ltac decide_tests :=
  repeat match goal with
  | |- context [(?a <? ?b)%N] => destruct (N.ltb_spec a b); try lia
  | |- context [(?a <=? ?b)%N] => destruct (N.leb_spec a b); try lia
  end.

Lemma to_N_byte_of_N n : (n < 256)%N -> Byte.to_N (byte_of_N n) = n.
Proof.
  intros H. unfold byte_of_N.
  destruct (Byte.of_N n) as [b|] eqn:E.
  - by apply Byte.to_of_N.
  - apply Byte.of_N_None_iff in E. lia.
Qed.

(** Decoding the encoding of one code point gives it back and goes on
    with the bytes that follow. *)
Lemma utf8_decode_encode_cp c bs rest :
  utf8_encode_cp c = Some bs ->
  utf8_decode (bs ++ rest) = cons c <$> utf8_decode rest.
Proof.
  unfold utf8_encode_cp, is_surrogate.
  split_ranges; intros [= <-]; simpl app; cbn [utf8_decode];
    unfold is_cont, is_surrogate.
  all: decide_tests; cbn [andb negb]; try lia.
  all: do 2 f_equal; lia.
Qed.

Lemma utf8_encode_cp_bytes c bs :
  utf8_encode_cp c = Some bs -> Forall (fun b => (b < 256)%N) bs.
Proof.
  unfold utf8_encode_cp, is_surrogate.
  split_ranges; intros [= <-]; repeat constructor; lia.
Qed.

Lemma utf8_decode_encode s :
  forall bs, utf8_encode s = Some bs ->
    utf8_decode bs = Some s /\ Forall (fun b => (b < 256)%N) bs.
Proof.
  induction s as [|c s IH]; intros bs.
  - intros [= <-]. split; [reflexivity | constructor].
  - cbn [utf8_encode].
    destruct (utf8_encode_cp c) as [hd|] eqn:Ec; [|discriminate].
    destruct (utf8_encode s) as [tl|] eqn:Es; [|discriminate].
    intros [= <-]. destruct (IH tl eq_refl) as [Hd Hb]. split.
    + rewrite (utf8_decode_encode_cp c hd tl Ec), Hd. reflexivity.
    + apply Forall_app. split; [|exact Hb].
      by apply (utf8_encode_cp_bytes c).
Qed.

(** [s.encode().decode() == s] *)
Lemma decode_encode s data : encode s = Some data -> decode data = Some s.
Proof.
  unfold encode, decode.
  destruct (utf8_encode s) as [bs|] eqn:E; [|discriminate].
  intros [= <-]. destruct (utf8_decode_encode s bs E) as [Hd Hb].
  rewrite <- Hd. f_equal. rewrite map_map.
  clear -Hb. induction Hb as [|b bs Hlt _ IH]; [reflexivity|].
  simpl. by rewrite to_N_byte_of_N, IH.
Qed.

End TextFacts.

(** ** Paths: parsing what was printed *)

Module PathFacts.
Import Pathlib.

Lemma split_sep_plain x :
  existsb (N.eqb sep) x = false -> split_sep x = [x].
Proof.
  induction x as [|c x IH]; [reflexivity|].
  cbn [existsb split_sep]. intros H. apply orb_false_iff in H as [Hc Hx].
  rewrite (N.eqb_sym c sep), Hc, (IH Hx). reflexivity.
Qed.

Lemma split_sep_app x s :
  existsb (N.eqb sep) x = false ->
  split_sep (x ++ sep :: s) = x :: split_sep s.
Proof.
  induction x as [|c x IH]; intros H.
  - cbn [app split_sep]. by rewrite N.eqb_refl.
  - cbn [existsb] in H. apply orb_false_iff in H as [Hc Hx].
    rewrite <- app_comm_cons. cbn [split_sep].
    rewrite (N.eqb_sym c sep), Hc, (IH Hx). reflexivity.
Qed.

Lemma split_join ps :
  forallb valid_part ps = true -> ps <> [] ->
  split_sep (join_sep ps) = ps.
Proof.
  induction ps as [|p ps IH]; [done|]. intros Hv _.
  cbn [forallb] in Hv. apply andb_true_iff in Hv as [Hp Hps].
  unfold valid_part in Hp. apply andb_true_iff in Hp as [_ Hp].
  apply negb_true_iff in Hp.
  destruct ps as [|p' ps].
  - simpl. by apply split_sep_plain.
  - change (join_sep (p :: p' :: ps)) with (p ++ sep :: join_sep (p' :: ps)).
    rewrite split_sep_app by exact Hp. f_equal. by apply IH.
Qed.

Lemma filter_valid ps :
  forallb valid_part ps = true -> List.filter keep_part ps = ps.
Proof.
  induction ps as [|p ps IH]; [reflexivity|]. cbn [forallb List.filter].
  intros H. apply andb_true_iff in H as [Hp Hps].
  unfold valid_part in Hp. apply andb_true_iff in Hp as [Hk _].
  by rewrite Hk, IH.
Qed.

Lemma filter_empty_part l :
  List.filter keep_part ([] :: l) = List.filter keep_part l.
Proof. reflexivity. Qed.

(** The printed components start with a character that is no slash. *)
Lemma join_sep_head p ps :
  valid_part p = true ->
  exists c t, join_sep (p :: ps) = c :: t /\ (c =? sep)%N = false.
Proof.
  unfold valid_part. intros H. apply andb_true_iff in H as [Hk H].
  apply negb_true_iff in H.
  destruct p as [|c p]; [by vm_compute in Hk|].
  cbn [existsb] in H. apply orb_false_iff in H as [Hc _].
  rewrite N.eqb_sym in Hc.
  destruct ps; simpl; eauto.
Qed.

(** [Path(str(p)) == p] for an absolute path. *)
Lemma of_str_to_str p :
  well_formed p = true -> is_absolute p = true -> of_str (to_str p) = p.
Proof.
  destruct p as [a ps]. unfold well_formed, is_absolute, of_str, to_str.
  cbn [anchor_of parts]. intros Hwf Habs.
  destruct ps as [|p ps].
  - destruct a; [discriminate| |]; reflexivity.
  - assert (Hsplit : split_sep (join_sep (p :: ps)) = p :: ps)
      by (by apply split_join).
    assert (Hfilter := filter_valid _ Hwf).
    cbn [forallb] in Hwf. apply andb_true_iff in Hwf as [Hp _].
    destruct (join_sep_head p ps Hp) as (c & t & Hj & Hc).
    destruct a; [discriminate| |].
    + cbn [split_sep]. rewrite N.eqb_refl, Hsplit, filter_empty_part, Hfilter.
      f_equal. rewrite Hj. unfold root_of.
      rewrite N.eqb_refl, Hc. by destruct t.
    + cbn [split_sep]. rewrite N.eqb_refl, Hsplit, !filter_empty_part, Hfilter.
      f_equal. rewrite Hj. unfold root_of.
      rewrite !N.eqb_refl, Hc. reflexivity.
Qed.

End PathFacts.

(** ** The file system: what reads and writes do *)

Module OsFacts.
Import Os.

Lemma node_at_root w : node_at w [] = Some Dir.
Proof. reflexivity. Qed.

Lemma node_at_set_eq w k n : k <> [] -> node_at (set_node w k n) k = Some n.
Proof.
  intros Hk. destruct k; [done|]. unfold node_at, set_node. simpl.
  apply lookup_insert_eq.
Qed.

Lemma node_at_set_ne w k k' n :
  k <> k' -> node_at (set_node w k n) k' = node_at w k'.
Proof.
  intros Hk. destruct k'; [done|]. unfold node_at, set_node. simpl.
  by apply lookup_insert_ne.
Qed.

Lemma set_node_twice w k a b : set_node (set_node w k a) k b = set_node w k b.
Proof. unfold set_node. simpl. by rewrite insert_insert_eq. Qed.

Lemma write_text_ok w p s data :
  can_open_w w p = true -> Text.encode s = Some data ->
  write_text p s w = (Ok tt, after_write w p data).
Proof.
  unfold can_open_w, write_text, after_write, open_w, write.
  unfold mbind, io_bind.
  destruct (Pathlib.has_nul p); [discriminate|]. cbn [negb andb].
  intros Hopen Henc.
  destruct (node_at w (resolve w p)) as [[|r wr d]|] eqn:Hn; [discriminate| |].
  - rewrite Hopen in *. rewrite Henc.
    assert (Hk : resolve w p <> []) by (intros E; rewrite E in Hn; discriminate).
    change (resolve (set_node w (resolve w p) (File r true [])) p)
      with (resolve w p).
    rewrite node_at_set_eq by exact Hk. by rewrite set_node_twice.
  - assert (Hk : resolve w p <> []) by (intros E; rewrite E in Hn; discriminate).
    destruct (node_at w (removelast (resolve w p))) as [[|? ? ?]|];
      try discriminate.
    rewrite Henc.
    change (resolve (set_node w (resolve w p) (File true true [])) p)
      with (resolve w p).
    rewrite node_at_set_eq by exact Hk. by rewrite set_node_twice.
Qed.

Lemma write_text_fail w p s :
  can_open_w w p = false -> exists e, write_text p s w = (Raise e, w).
Proof.
  unfold can_open_w, write_text, open_w. unfold mbind, io_bind.
  destruct (Pathlib.has_nul p); [eauto|]. cbn [negb andb].
  destruct (node_at w (resolve w p)) as [[|r wr d]|]; [eauto| |].
  - intros ->. eauto.
  - destruct (node_at w (removelast (resolve w p))) as [[|? ? ?]|];
      [discriminate|eauto|eauto].
Qed.

(** After a write the path names a regular file that holds the data. *)
Lemma stat_after_write w p data :
  can_open_w w p = true ->
  exists r wr, stat (after_write w p data) p = Ok (File r wr data).
Proof.
  unfold can_open_w, after_write, stat.
  destruct (Pathlib.has_nul p); [discriminate|]. cbn [negb andb].
  destruct (node_at w (resolve w p)) as [[|r wr d]|] eqn:Hn; [discriminate| |];
    intros _;
    (assert (Hk : resolve w p <> [])
       by (intros E; rewrite E in Hn; discriminate)).
  - exists r, wr.
    change (resolve (set_node w (resolve w p) (File r wr data)) p)
      with (resolve w p).
    by rewrite node_at_set_eq.
  - exists true, true.
    change (resolve (set_node w (resolve w p) (File true true data)) p)
      with (resolve w p).
    by rewrite node_at_set_eq.
Qed.

(** A file created by a write can be read back. *)
Lemma read_after_create w p s data :
  can_open_w w p = true -> exists_ w p = false ->
  Text.encode s = Some data ->
  read_text (after_write w p data) p = Ok (Text.universal_newlines s).
Proof.
  unfold can_open_w, exists_, after_write, read_text, read_bytes, stat.
  destruct (Pathlib.has_nul p); [discriminate|]. cbn [negb andb].
  destruct (node_at w (resolve w p)) as [n|] eqn:Hn; [discriminate|].
  intros Hopen _ Henc.
  assert (Hk : resolve w p <> []) by (intros E; rewrite E in Hn; discriminate).
  change (resolve (set_node w (resolve w p) (File true true data)) p)
    with (resolve w p).
  rewrite node_at_set_eq by exact Hk.
  by rewrite (TextFacts.decode_encode s data Henc).
Qed.

End OsFacts.

(** ** Directories *)

Module DirFacts.
Import Os.

Lemma keeps_cwd_bind {A B} (m : io A) (k : A -> io B) :
  keeps_cwd m -> (forall a, keeps_cwd (k a)) -> keeps_cwd (m ≫= k).
Proof.
  intros Hm Hk w r w'. unfold mbind, io_bind.
  destruct (m w) as [[a|e] w1] eqn:E.
  - intros H. rewrite (Hk a _ _ _ H). exact (Hm _ _ _ E).
  - intros [= <- <-]. exact (Hm _ _ _ E).
Qed.

Lemma keeps_cwd_try {A} (m : io A) handled (h : exn -> io A) :
  keeps_cwd m -> (forall e, keeps_cwd (h e)) ->
  keeps_cwd (try_except m handled h).
Proof.
  intros Hm Hh w r w'. unfold try_except.
  destruct (m w) as [[a|e] w1] eqn:E.
  - intros [= <- <-]. exact (Hm _ _ _ E).
  - destruct (handled e).
    + intros H. rewrite (Hh e _ _ _ H). exact (Hm _ _ _ E).
    + intros [= <- <-]. exact (Hm _ _ _ E).
Qed.

Lemma keeps_cwd_mkdir p : keeps_cwd (mkdir p).
Proof.
  intros w r w'. unfold mkdir.
  repeat case_match; intros [= <- <-]; reflexivity.
Qed.

Lemma keeps_cwd_open_w p : keeps_cwd (open_w p).
Proof.
  intros w r w'. unfold open_w.
  repeat case_match; intros [= <- <-]; reflexivity.
Qed.

Lemma keeps_cwd_write p s : keeps_cwd (write p s).
Proof.
  intros w r w'. unfold write.
  repeat case_match; intros [= <- <-]; reflexivity.
Qed.

Lemma keeps_cwd_is_dir_or_raise p e :
  keeps_cwd (fun w => if is_dir w p then (Ok tt, w) else (Raise e, w)).
Proof. intros w r w'. case_match; by intros [= <- <-]. Qed.

Lemma keeps_cwd_mkdir_exist_ok p : keeps_cwd (mkdir_exist_ok p).
Proof.
  apply keeps_cwd_try; [apply keeps_cwd_mkdir|].
  intros e. apply keeps_cwd_is_dir_or_raise.
Qed.

Lemma keeps_cwd_mkdir_parents a rparts : keeps_cwd (mkdir_parents a rparts).
Proof.
  induction rparts as [|x up IH]; cbn [mkdir_parents];
    (apply keeps_cwd_try; [apply keeps_cwd_mkdir|]); intros e;
    destruct (bool_decide (e = FileNotFoundError));
    try apply keeps_cwd_is_dir_or_raise.
  - intros w r w'. unfold raise. by intros [= <- <-].
  - apply keeps_cwd_bind; [exact IH|]. intros _. apply keeps_cwd_mkdir_exist_ok.
Qed.

Lemma is_dir_after_mkdir p w w' :
  mkdir p w = (Ok tt, w') -> is_dir w' p = true.
Proof.
  unfold mkdir, is_dir, stat.
  destruct (Pathlib.has_nul p); [discriminate|].
  destruct (node_at w (resolve w p)) eqn:Hn; [discriminate|].
  assert (Hk : resolve w p <> []) by (intros E; rewrite E in Hn; discriminate).
  destruct (node_at w (removelast (resolve w p))) as [[|? ? ?]|];
    try discriminate.
  intros [= <-].
  change (resolve (set_node w (resolve w p) Dir) p) with (resolve w p).
  by rewrite OsFacts.node_at_set_eq.
Qed.

Lemma is_dir_after_mkdir_exist_ok p w w' :
  mkdir_exist_ok p w = (Ok tt, w') -> is_dir w' p = true.
Proof.
  unfold mkdir_exist_ok, try_except.
  destruct (mkdir p w) as [[[]|e] w1] eqn:E.
  - intros [= <-]. exact (is_dir_after_mkdir _ _ _ E).
  - destruct (_ && _); [|discriminate].
    destruct (is_dir w1 p) eqn:Hd; [|discriminate]. by intros [= <-].
Qed.

(** [mkdir(parents=True, exist_ok=True)] that returns has made the path a
    directory. *)
Lemma is_dir_after_makedirs p w w' :
  makedirs p w = (Ok tt, w') -> is_dir w' p = true.
Proof.
  unfold makedirs. destruct p as [a ps]. cbn [anchor_of parts].
  rewrite <- (rev_involutive ps). generalize (rev ps) as rparts.
  intros rparts. rewrite rev_involutive.
  destruct rparts as [|x up]; cbn [mkdir_parents]; unfold try_except;
    set (p := mkPath a (rev _));
    destruct (mkdir p w) as [[[]|e] w1] eqn:E.
  - intros [= <-]. exact (is_dir_after_mkdir _ _ _ E).
  - destruct (is_OSError e); [|discriminate].
    destruct (bool_decide (e = FileNotFoundError)); [discriminate|].
    destruct (is_dir w1 p) eqn:Hd; [|discriminate]. by intros [= <-].
  - intros [= <-]. exact (is_dir_after_mkdir _ _ _ E).
  - destruct (is_OSError e); [|discriminate].
    destruct (bool_decide (e = FileNotFoundError)).
    + unfold mbind, io_bind.
      destruct (mkdir_parents a up w1) as [[[]|e'] w2]; [|discriminate].
      apply is_dir_after_mkdir_exist_ok.
    + destruct (is_dir w1 p) eqn:Hd; [|discriminate]. by intros [= <-].
Qed.

(** Setting a node elsewhere does not change whether a path is a
    directory. *)
Lemma is_dir_set_node w k n p :
  k <> resolve w p -> is_dir (set_node w k n) p = is_dir w p.
Proof.
  intros Hk. unfold is_dir, stat.
  change (resolve (set_node w k n) p) with (resolve w p).
  by rewrite OsFacts.node_at_set_ne.
Qed.

End DirFacts.

(** ** [config.py]: the shape of a load *)

Module ConfigFacts.
Import ConfigStore.

Section WithHome.

Variable home : Path.

Lemma encode_default :
  Text.encode (Json.dumps 2 default_contents) = Some default_bytes.
Proof. vm_compute. reflexivity. Qed.

Lemma load_failure_handled w p :
  load_failure w p <->
  exists e, json_load w p = Raise e /\ load_handled e = true.
Proof.
  unfold json_load, Os.read_text, load_handled. split.
  - intros [e Hr He | s Hr Hl].
    + exists e. rewrite Hr, He. done.
    + exists JSONDecodeError. unfold Os.read_text in Hr.
      destruct (Os.read_bytes w p) as [data|]; [|discriminate].
      destruct (Text.decode data); [|discriminate].
      injection Hr as ->. by rewrite Hl.
  - intros (e & Hr & He).
    destruct (Os.read_bytes w p) as [data|e'] eqn:Hb.
    + destruct (Text.decode data) as [s|] eqn:Hd.
      * destruct (Json.loads (Text.universal_newlines s)) eqn:Hl; [discriminate|].
        apply (malformed_json w p (Text.universal_newlines s)); [|exact Hl].
        unfold Os.read_text. by rewrite Hb, Hd.
      * injection Hr as <-. by vm_compute in He.
    + injection Hr as <-. apply (io_failure w p e' Hb).
      apply orb_true_iff in He as [He|He]; [exact He|].
      apply bool_decide_eq_true in He. subst e'.
      unfold Os.read_bytes, Os.stat in Hb.
      repeat (case_match; simplify_eq).
Qed.

(** *** The choice of the target *)

Lemma target_without_pointer w :
  Os.exists_ w (LAST_CONFIG_FILE home) = false ->
  config_file_to_load home w = (Ok (DEFAULT_DATA_FILE home), w).
Proof. unfold config_file_to_load. by intros ->. Qed.

Lemma read_text_exists w p s : Os.read_text w p = Ok s -> Os.exists_ w p = true.
Proof.
  unfold Os.read_text, Os.read_bytes, Os.exists_.
  destruct (Os.stat w p); [done|discriminate].
Qed.

Lemma read_bytes_exists w p data :
  Os.read_bytes w p = Ok data -> Os.exists_ w p = true.
Proof.
  unfold Os.read_bytes, Os.exists_. destruct (Os.stat w p); [done|discriminate].
Qed.

Lemma target_unreadable_pointer w e :
  Os.exists_ w (LAST_CONFIG_FILE home) = true ->
  Os.read_bytes w (LAST_CONFIG_FILE home) = Raise e ->
  config_file_to_load home w = (Ok (DEFAULT_DATA_FILE home), w).
Proof.
  intros Hex Hr.
  assert (He : is_OSError e = true).
  { unfold Os.read_bytes, Os.exists_ in *.
    destruct (Os.stat w (LAST_CONFIG_FILE home)) as [[|r wr d]|]; [| |done].
    - by injection Hr as <-.
    - destruct r; [discriminate|]. by injection Hr as <-. }
  unfold config_file_to_load, try_except, inspect, Os.read_text, pointer_handled.
  by rewrite Hex, Hr, He.
Qed.

Lemma target_from_pointer w s :
  Os.read_text w (LAST_CONFIG_FILE home) = Ok s ->
  config_file_to_load home w =
  (Ok (if Os.exists_ w (Pathlib.of_str (Text.strip s))
       then Pathlib.of_str (Text.strip s) else DEFAULT_DATA_FILE home), w).
Proof.
  intros Hr. unfold config_file_to_load, try_except, inspect.
  rewrite (read_text_exists _ _ _ Hr), Hr.
  by destruct (Os.exists_ w (Pathlib.of_str (Text.strip s))).
Qed.

Lemma target_undecodable_pointer w data :
  Os.read_bytes w (LAST_CONFIG_FILE home) = Ok data ->
  Text.decode data = None ->
  config_file_to_load home w = (Raise UnicodeDecodeError, w).
Proof.
  intros Hr Hd. unfold config_file_to_load, try_except, inspect, Os.read_text.
  by rewrite (read_bytes_exists _ _ _ Hr), Hr, Hd.
Qed.

(** The target is the default path or a path that exists; choosing it
    leaves the world alone and fails only on a pointer that is not text. *)
Lemma target_cases w :
  exists r, config_file_to_load home w = (r, w) /\
    (r = Ok (DEFAULT_DATA_FILE home) \/
     (exists p, r = Ok p /\ Os.exists_ w p = true) \/
     r = Raise UnicodeDecodeError).
Proof.
  destruct (Os.exists_ w (LAST_CONFIG_FILE home)) eqn:Hex.
  - destruct (Os.read_bytes w (LAST_CONFIG_FILE home)) as [data|e] eqn:Hb.
    + destruct (Text.decode data) as [s|] eqn:Hd.
      * assert (Hr : Os.read_text w (LAST_CONFIG_FILE home)
                     = Ok (Text.universal_newlines s))
          by (unfold Os.read_text; by rewrite Hb, Hd).
        rewrite (target_from_pointer _ _ Hr).
        eexists. split; [reflexivity|].
        destruct (Os.exists_ w (Pathlib.of_str _)) eqn:Hp; [|by left].
        right. left. eauto.
      * rewrite (target_undecodable_pointer _ _ Hb Hd). eauto.
    + rewrite (target_unreadable_pointer _ _ Hex Hb). eauto.
  - rewrite (target_without_pointer _ Hex). eauto.
Qed.

(** *** Reading a data file and writing the default *)

Lemma read_config_ok w p v :
  json_load w p = Ok v -> read_config p w = (Ok (mkConfig p v), w).
Proof. unfold read_config, inspect. by intros ->. Qed.

Lemma read_config_raise w p e :
  json_load w p = Raise e -> read_config p w = (Raise e, w).
Proof. unfold read_config, inspect. by intros ->. Qed.

Lemma create_default_ok w :
  Os.can_open_w w (DEFAULT_DATA_FILE home) = true ->
  create_default home w =
  (Ok (mkConfig (DEFAULT_DATA_FILE home) default_contents),
   Os.after_write w (DEFAULT_DATA_FILE home) default_bytes).
Proof.
  intros H. unfold create_default, json_dump. unfold mbind, io_bind.
  by rewrite (OsFacts.write_text_ok _ _ _ _ H encode_default).
Qed.

Lemma create_default_fail w :
  Os.can_open_w w (DEFAULT_DATA_FILE home) = false ->
  exists e, create_default home w = (Raise e, w).
Proof.
  intros H. unfold create_default, json_dump. unfold mbind, io_bind.
  destruct (OsFacts.write_text_fail w _ (Json.dumps 2 default_contents) H)
    as [e ->]. eauto.
Qed.

Lemma load_unfold w target :
  config_file_to_load home w = (Ok target, w) ->
  load_last_config home w = load_from home target w.
Proof. intros H. unfold load_last_config, mbind, io_bind. by rewrite H. Qed.

Lemma load_from_ok w target v :
  json_load w target = Ok v ->
  load_from home target w = (Ok (mkConfig target v), w).
Proof.
  intros H. unfold load_from, try_except. by rewrite (read_config_ok _ _ _ H).
Qed.

Lemma load_from_default_failure w :
  load_failure w (DEFAULT_DATA_FILE home) ->
  load_from home (DEFAULT_DATA_FILE home) w = create_default home w.
Proof.
  intros Hf. apply load_failure_handled in Hf as (e & Hr & He).
  unfold load_from, try_except.
  rewrite (read_config_raise _ _ _ Hr), He.
  by rewrite bool_decide_eq_true_2.
Qed.

Lemma load_from_other_failure w target :
  target <> DEFAULT_DATA_FILE home ->
  load_failure w target ->
  load_from home target w =
  try_except (read_config (DEFAULT_DATA_FILE home)) load_handled
    (fun _ => create_default home) w.
Proof.
  intros Hne Hf. apply load_failure_handled in Hf as (e & Hr & He).
  unfold load_from at 1. unfold try_except at 1.
  rewrite (read_config_raise _ _ _ Hr), He.
  by rewrite bool_decide_eq_false_2.
Qed.

Lemma retry_default_ok w v :
  json_load w (DEFAULT_DATA_FILE home) = Ok v ->
  try_except (read_config (DEFAULT_DATA_FILE home)) load_handled
    (fun _ => create_default home) w =
  (Ok (mkConfig (DEFAULT_DATA_FILE home) v), w).
Proof. intros H. unfold try_except. by rewrite (read_config_ok _ _ _ H). Qed.

Lemma retry_default_failure w :
  load_failure w (DEFAULT_DATA_FILE home) ->
  try_except (read_config (DEFAULT_DATA_FILE home)) load_handled
    (fun _ => create_default home) w = create_default home w.
Proof.
  intros Hf. apply load_failure_handled in Hf as (e & Hr & He).
  unfold try_except. by rewrite (read_config_raise _ _ _ Hr), He.
Qed.

Lemma load_from_unhandled w target e :
  json_load w target = Raise e -> load_handled e = false ->
  load_from home target w = (Raise e, w).
Proof.
  intros Hr He. unfold load_from, try_except.
  by rewrite (read_config_raise _ _ _ Hr), He.
Qed.

End WithHome.
End ConfigFacts.

(** ** [config.py]: loading *)

Module LoadFacts.
Import ConfigStore ConfigFacts.

Section WithHome.

Variable home : Path.

Lemma json_load_file w p v :
  json_load w p = Ok v ->
  exists wr data, Os.stat w p = Ok (File true wr data).
Proof.
  unfold json_load, Os.read_text, Os.read_bytes.
  destruct (Os.stat w p) as [[|[] wr data]|]; try discriminate. eauto.
Qed.

(** The exceptions of a read that the second handler lets through. *)
Lemma json_load_unhandled w p e :
  json_load w p = Raise e -> load_handled e = false ->
  e = UnicodeDecodeError \/ e = ValueError.
Proof.
  unfold json_load, Os.read_text, Os.read_bytes, Os.stat, load_handled.
  intros Hr He. repeat (case_match; simplify_eq); auto; discriminate.
Qed.

Lemma create_default_result w r w' :
  create_default home w = (r, w') ->
  (Os.can_open_w w (DEFAULT_DATA_FILE home) = true /\
   r = Ok (mkConfig (DEFAULT_DATA_FILE home) default_contents) /\
   w' = Os.after_write w (DEFAULT_DATA_FILE home) default_bytes) \/
  (Os.can_open_w w (DEFAULT_DATA_FILE home) = false /\
   w' = w /\ exists e, r = Raise e).
Proof.
  destruct (Os.can_open_w w (DEFAULT_DATA_FILE home)) eqn:Hc.
  - rewrite (create_default_ok home w Hc). intros [= <- <-]. by left.
  - destruct (create_default_fail home w Hc) as [e ->].
    intros [= <- <-]. right. eauto.
Qed.

(** Everything a load that starts from a known target can come to. *)
Lemma load_from_result w target r w' :
  load_from home target w = (r, w') ->
  (exists v, json_load w target = Ok v /\
     r = Ok (mkConfig target v) /\ w' = w) \/
  (exists v, load_failure w target /\ target <> DEFAULT_DATA_FILE home /\
     json_load w (DEFAULT_DATA_FILE home) = Ok v /\
     r = Ok (mkConfig (DEFAULT_DATA_FILE home) v) /\ w' = w) \/
  (load_failure w target /\ load_failure w (DEFAULT_DATA_FILE home) /\
     create_default home w = (r, w')) \/
  (exists e, r = Raise e /\ w' = w /\
     (e = UnicodeDecodeError \/ e = ValueError)).
Proof.
  destruct (json_load w target) as [v|e] eqn:Ht.
  { rewrite (load_from_ok home w target v Ht). intros [= <- <-]. left. eauto. }
  destruct (load_handled e) eqn:He.
  2:{ rewrite (load_from_unhandled home w target e Ht He). intros [= <- <-].
      do 3 right. exists e. split; [done|]. split; [done|].
      exact (json_load_unhandled _ _ _ Ht He). }
  assert (Hft : load_failure w target) by (apply load_failure_handled; eauto).
  destruct (decide (target = DEFAULT_DATA_FILE home)) as [->|Hne].
  { rewrite (load_from_default_failure home w Hft). intros Hc.
    right. right. left. done. }
  rewrite (load_from_other_failure home w target Hne Hft).
  destruct (json_load w (DEFAULT_DATA_FILE home)) as [v|e'] eqn:Hd.
  { rewrite (retry_default_ok home w v Hd). intros [= <- <-].
    right. left. exists v. done. }
  destruct (load_handled e') eqn:He'.
  - assert (Hfd : load_failure w (DEFAULT_DATA_FILE home))
      by (apply load_failure_handled; eauto).
    rewrite (retry_default_failure home w Hfd). intros Hc.
    right. right. left. done.
  - unfold try_except. rewrite (read_config_raise _ _ _ Hd), He'.
    intros [= <- <-]. do 3 right. exists e'. split; [done|]. split; [done|].
    exact (json_load_unhandled _ _ _ Hd He').
Qed.

(** The exceptions that get past [load_last_config]: a file that is not
    UTF-8 text, a path the system rejects, or a default file that cannot
    be written. None of the errors its handlers name gets through. *)
Lemma load_raises_only w e w' :
  load_last_config home w = (Raise e, w') ->
  w' = w /\
  (e = UnicodeDecodeError \/ e = ValueError \/
   Os.can_open_w w (DEFAULT_DATA_FILE home) = false).
Proof.
  destruct (target_cases home w) as (r & Ht & Hr).
  assert (Hload : forall target, r = Ok target ->
            load_last_config home w = (Raise e, w') ->
            w' = w /\ (e = UnicodeDecodeError \/ e = ValueError \/
               Os.can_open_w w (DEFAULT_DATA_FILE home) = false)).
  { intros target -> . rewrite (load_unfold home w target Ht). intros H.
    apply load_from_result in H
      as [(v & _ & ? & _)|[(v & _ & _ & _ & ? & _)|[(_ & _ & Hc)|(e0 & ? & ? & ?)]]];
      try discriminate.
    - apply create_default_result in Hc
        as [(_ & ? & _)|(Hno & -> & _)]; [discriminate|]. auto.
    - simplify_eq. tauto. }
  destruct Hr as [->|[(p & -> & _)| ->]]; eauto.
  unfold load_last_config, mbind, io_bind. rewrite Ht.
  intros [= <- <-]. auto.
Qed.

End WithHome.
End LoadFacts.

(** ** [config.py]: saving the pointer *)

Module SaveFacts.
Import ConfigStore ConfigFacts.

Lemma absolute_is_absolute cwd p :
  Pathlib.is_absolute (Pathlib.absolute cwd p) = true.
Proof. unfold Pathlib.absolute, Pathlib.is_absolute. by destruct p as [[] ?]. Qed.

Section WithHome.

Variable home : Path.

Lemma parent_pointer :
  Pathlib.parent (LAST_CONFIG_FILE home) = CONFIG_DIR home.
Proof.
  assert (Hp : parts (LAST_CONFIG_FILE home) =
               parts (CONFIG_DIR home) ++ [lit ".last_config"]) by reflexivity.
  assert (Ha : anchor_of (LAST_CONFIG_FILE home) = anchor_of (CONFIG_DIR home))
    by reflexivity.
  unfold Pathlib.parent. rewrite Hp, Ha, removelast_last.
  by destruct (CONFIG_DIR home).
Qed.

Lemma pointer_key_below_dir w :
  Os.resolve w (LAST_CONFIG_FILE home) <> Os.resolve w (CONFIG_DIR home).
Proof.
  assert (Hp : parts (LAST_CONFIG_FILE home) =
               parts (CONFIG_DIR home) ++ [lit ".last_config"]) by reflexivity.
  assert (Ha : anchor_of (LAST_CONFIG_FILE home) = anchor_of (CONFIG_DIR home))
    by reflexivity.
  unfold Os.resolve. rewrite Ha, Hp.
  intros E. apply (f_equal length) in E.
  destruct (anchor_of (CONFIG_DIR home));
    rewrite ?length_app in E; simpl in E; lia.
Qed.

Lemma default_key_below_dir w :
  removelast (Os.resolve w (DEFAULT_DATA_FILE home)) =
  Os.resolve w (CONFIG_DIR home).
Proof.
  assert (Hp : parts (DEFAULT_DATA_FILE home) =
               parts (CONFIG_DIR home) ++ [DEFAULT_DATA_FILE_NAME])
    by reflexivity.
  assert (Ha : anchor_of (DEFAULT_DATA_FILE home) = anchor_of (CONFIG_DIR home))
    by reflexivity.
  unfold Os.resolve. rewrite Ha, Hp.
  destruct (anchor_of (CONFIG_DIR home));
    rewrite ?app_assoc; apply removelast_last.
Qed.

(** Once the module has been imported the configuration directory
    exists, so a default file that is absent can be created. *)
Lemma default_creatable_after_import w w' :
  import_module home w = (Ok tt, w') ->
  Os.exists_ w' (DEFAULT_DATA_FILE home) = false ->
  Os.can_open_w w' (DEFAULT_DATA_FILE home) = true.
Proof.
  intros Himport Habsent.
  pose proof (DirFacts.is_dir_after_makedirs _ _ _ Himport) as Hdir.
  unfold Os.is_dir, Os.stat in Hdir.
  destruct (Pathlib.has_nul (CONFIG_DIR home)) eqn:Hnul; [discriminate|].
  destruct (Os.node_at w' (Os.resolve w' (CONFIG_DIR home)))
    as [[|? ? ?]|] eqn:Hnode; try discriminate.
  assert (Hnul' : Pathlib.has_nul (DEFAULT_DATA_FILE home) = false).
  { unfold Pathlib.has_nul in *.
    change (parts (DEFAULT_DATA_FILE home))
      with (parts (CONFIG_DIR home) ++ [DEFAULT_DATA_FILE_NAME]).
    rewrite existsb_app. apply orb_false_iff. split; [exact Hnul|reflexivity]. }
  unfold Os.can_open_w. unfold Os.exists_, Os.stat in Habsent.
  rewrite Hnul' in *. cbn [negb andb].
  destruct (Os.node_at w' (Os.resolve w' (DEFAULT_DATA_FILE home)));
    [discriminate|].
  by rewrite default_key_below_dir, Hnode.
Qed.

(** What a save that returns has done: the working directory is the same,
    the configuration directory exists, and the pointer is a regular file
    that holds the UTF-8 form of the absolute path. *)
Lemma save_result p w w1 :
  save_last_config home p w = (Ok tt, w1) ->
  cwd w1 = cwd w /\
  Os.is_dir w1 (CONFIG_DIR home) = true /\
  exists r wr data,
    Os.stat w1 (LAST_CONFIG_FILE home) = Ok (File r wr data) /\
    Text.encode (Pathlib.to_str (Pathlib.absolute (cwd w) p)) = Some data.
Proof.
  unfold save_last_config. rewrite parent_pointer. unfold mbind, io_bind.
  destruct (Os.makedirs (CONFIG_DIR home) w) as [[[]|e] wa] eqn:Ea;
    [|discriminate].
  destruct (Os.open_w (LAST_CONFIG_FILE home) wa) as [[[]|e] wb] eqn:Eb;
    [|discriminate].
  intros Ew.
  assert (Hca : cwd wa = cwd w)
    by exact (DirFacts.keeps_cwd_mkdir_parents _ _ _ _ _ Ea).
  assert (Hcb : cwd wb = cwd wa) by exact (DirFacts.keeps_cwd_open_w _ _ _ _ Eb).
  assert (Hc1 : cwd w1 = cwd wb) by exact (DirFacts.keeps_cwd_write _ _ _ _ _ Ew).
  assert (Hdir : Os.is_dir wa (CONFIG_DIR home) = true)
    by exact (DirFacts.is_dir_after_makedirs _ _ _ Ea).
  pose proof (pointer_key_below_dir wa) as Hkey.
  set (k := Os.resolve wa (LAST_CONFIG_FILE home)) in *.
  assert (Hopen : Pathlib.has_nul (LAST_CONFIG_FILE home) = false /\
            k <> [] /\ exists r wr, wb = Os.set_node wa k (File r wr [])).
  { revert Eb. unfold Os.open_w. fold k.
    destruct (Pathlib.has_nul (LAST_CONFIG_FILE home)); [discriminate|].
    destruct (Os.node_at wa k) as [[|r wr d]|] eqn:Hn; [discriminate| |].
    - destruct wr; [|discriminate]. intros [= <-].
      split; [done|]. split; [intros E; rewrite E in Hn; discriminate|eauto].
    - destruct (Os.node_at wa (removelast k)) as [[|? ? ?]|]; try discriminate.
      intros [= <-].
      split; [done|]. split; [intros E; rewrite E in Hn; discriminate|eauto]. }
  destruct Hopen as (Hnul & Hk & r & wr & ->).
  revert Ew. unfold Os.write.
  change (cwd (Os.set_node wa k (File r wr []))) with (cwd wa). rewrite Hca.
  destruct (Text.encode _) as [data|] eqn:Henc; [|discriminate].
  change (Os.resolve (Os.set_node wa k (File r wr [])) (LAST_CONFIG_FILE home))
    with k.
  rewrite OsFacts.node_at_set_eq by exact Hk. rewrite OsFacts.set_node_twice.
  intros [= <-].
  split; [exact Hca|]. split.
  - rewrite DirFacts.is_dir_set_node; [exact Hdir|exact Hkey].
  - exists r, wr, data. split; [|reflexivity].
    unfold Os.stat. rewrite Hnul.
    change (Os.resolve (Os.set_node wa k (File r wr data)) (LAST_CONFIG_FILE home))
      with k.
    by rewrite OsFacts.node_at_set_eq.
Qed.

End WithHome.
End SaveFacts.

(** ** The configuration store *)

(** C1 (as amended). When [load_last_config] returns, the path of the
    returned [Config] names a regular file in the world it leaves, and
    either nothing was written and the contents are the JSON value that
    file parses to, or the default file has just been written and the
    contents are [{"tickers": []}]. Only the second case promises a
    [tickers] key. *)
Theorem load_returns_a_file_and_its_json
    (home : Path) (w w' : world) (cfg : Config) :
  ConfigStore.load_last_config home w = (Ok cfg, w') ->
  (exists r wr data, Os.stat w' (config_path cfg) = Ok (File r wr data)) /\
  ((w' = w /\ ConfigStore.json_load w (config_path cfg) = Ok (contents cfg)) \/
   (cfg = mkConfig (ConfigStore.DEFAULT_DATA_FILE home)
                   ConfigStore.default_contents /\
    w' = Os.after_write w (ConfigStore.DEFAULT_DATA_FILE home)
           ConfigStore.default_bytes /\
    ConfigStore.has_tickers (contents cfg) = true)).
Proof.
  intros Hload.
  destruct (ConfigFacts.target_cases home w) as (r & Ht & _).
  destruct r as [target|e].
  2:{ unfold ConfigStore.load_last_config, mbind, io_bind in Hload.
      rewrite Ht in Hload. discriminate. }
  rewrite (ConfigFacts.load_unfold home w target Ht) in Hload.
  assert (Hread : forall p v, ConfigStore.json_load w p = Ok v ->
            cfg = mkConfig p v -> w' = w ->
            (exists r wr data, Os.stat w' (config_path cfg) = Ok (File r wr data)) /\
            ((w' = w /\ ConfigStore.json_load w (config_path cfg)
                        = Ok (contents cfg)) \/
             (cfg = mkConfig (ConfigStore.DEFAULT_DATA_FILE home)
                             ConfigStore.default_contents /\
              w' = Os.after_write w (ConfigStore.DEFAULT_DATA_FILE home)
                     ConfigStore.default_bytes /\
              ConfigStore.has_tickers (contents cfg) = true))).
  { intros p v Hp -> ->. cbn [config_path contents]. split; [|by left].
    destruct (LoadFacts.json_load_file w p v Hp) as (wr & data & Hs). eauto. }
  apply LoadFacts.load_from_result in Hload
    as [(v & Hv & Hr & Hw)|[(v & _ & _ & Hv & Hr & Hw)|[(_ & _ & Hc)|(e & ? & _)]]];
    [| | |discriminate].
  - injection Hr as ->. by apply (Hread target v).
  - injection Hr as ->. by apply (Hread (ConfigStore.DEFAULT_DATA_FILE home) v).
  - apply LoadFacts.create_default_result in Hc
      as [(Hopen & Hr & ->)|(_ & _ & e & ?)]; [|discriminate].
    injection Hr as ->. cbn [config_path contents]. split.
    + destruct (OsFacts.stat_after_write w _ ConfigStore.default_bytes Hopen)
        as (r & wr & Hs). eauto.
    + right. done.
Qed.

Lemma load_returns_a_file_and_its_json_witness :
  (exists r wr data,
     Os.stat Samples.with_custom (Pathlib.of_str (lit "/home/u/custom.json"))
     = Ok (File r wr data)) /\
  (exists r wr data,
     Os.stat (ConfigStore.load_last_config Samples.home Samples.fresh).2
       (ConfigStore.DEFAULT_DATA_FILE Samples.home) = Ok (File r wr data)).
Proof.
  split.
  - apply (load_returns_a_file_and_its_json Samples.home Samples.with_custom
             Samples.with_custom
             (mkConfig (Pathlib.of_str (lit "/home/u/custom.json"))
                (JObject [(lit "tickers",
                           JArray [JString (lit "TSLA"); JString (lit "NVDA")])]))).
    evaluate.
  - apply (load_returns_a_file_and_its_json Samples.home Samples.fresh
             (ConfigStore.load_last_config Samples.home Samples.fresh).2
             (mkConfig (ConfigStore.DEFAULT_DATA_FILE Samples.home)
                ConfigStore.default_contents)).
    evaluate.
Defined.

(** C1 as stated fails: a default file that holds [{}] is loaded as it
    is, and the contents returned have no [tickers] key. *)
Lemma load_without_tickers_key :
  ConfigStore.load_last_config Samples.home Samples.empty_object_default =
    (Ok (mkConfig (ConfigStore.DEFAULT_DATA_FILE Samples.home) (JObject [])),
     Samples.empty_object_default) /\
  ConfigStore.has_tickers (JObject []) = false.
Proof. split; evaluate. Qed.

(** C2. The handlers of [load_last_config] do not name
    [UnicodeDecodeError]: a default file whose bytes are not UTF-8 makes
    the call raise. *)
Theorem load_raises_on_undecodable_data :
  ConfigStore.load_last_config Samples.home Samples.undecodable_default =
  (Raise UnicodeDecodeError, Samples.undecodable_default).
Proof. evaluate. Qed.

(** C3 (as amended). The target [load_last_config] has chosen cannot be
    loaded: it is missing, cannot be read, or holds text that is not JSON.
    If the target is the default path, and the default path can be opened
    for writing, [{"tickers": []}] is written there and returned. If it is
    another path, the default path is tried once: its JSON is returned
    when it loads, and when it fails in one of the same three ways and can
    be opened for writing, [{"tickers": []}] is written there and
    returned. *)
Theorem fallback_after_failed_load (home : Path) (w : world) (target : Path) :
  ConfigStore.config_file_to_load home w = (Ok target, w) ->
  ConfigStore.load_failure w target ->
  let default_file := ConfigStore.DEFAULT_DATA_FILE home in
  let fresh :=
    (Ok (mkConfig default_file ConfigStore.default_contents),
     Os.after_write w default_file ConfigStore.default_bytes) in
  (target = default_file ->
   Os.can_open_w w default_file = true ->
   ConfigStore.load_last_config home w = fresh) /\
  (target <> default_file ->
   (forall v, ConfigStore.json_load w default_file = Ok v ->
      ConfigStore.load_last_config home w = (Ok (mkConfig default_file v), w)) /\
   (ConfigStore.load_failure w default_file ->
    Os.can_open_w w default_file = true ->
    ConfigStore.load_last_config home w = fresh)).
Proof.
  intros Ht Hfail default_file fresh. subst default_file fresh.
  rewrite (ConfigFacts.load_unfold home w target Ht). split.
  - intros -> Hopen.
    rewrite (ConfigFacts.load_from_default_failure home w Hfail).
    by apply ConfigFacts.create_default_ok.
  - intros Hne.
    rewrite (ConfigFacts.load_from_other_failure home w target Hne Hfail). split.
    + intros v Hv. by apply ConfigFacts.retry_default_ok.
    + intros Hfd Hopen. rewrite (ConfigFacts.retry_default_failure home w Hfd).
      by apply ConfigFacts.create_default_ok.
Qed.

Lemma fallback_after_failed_load_witness :
  (ConfigStore.load_last_config Samples.home Samples.fresh).1 =
    Ok (mkConfig (ConfigStore.DEFAULT_DATA_FILE Samples.home)
          ConfigStore.default_contents) /\
  ConfigStore.load_last_config Samples.home Samples.invalid_custom =
    (Ok (mkConfig (ConfigStore.DEFAULT_DATA_FILE Samples.home)
           Samples.sample_tickers), Samples.invalid_custom).
Proof.
  split.
  - assert (Hfail : ConfigStore.load_failure Samples.fresh
                      (ConfigStore.DEFAULT_DATA_FILE Samples.home)).
    { apply (ConfigStore.io_failure _ _ FileNotFoundError); reflexivity. }
    rewrite (proj1 (fallback_after_failed_load Samples.home Samples.fresh
                      (ConfigStore.DEFAULT_DATA_FILE Samples.home)
                      eq_refl Hfail) eq_refl eq_refl).
    reflexivity.
  - assert (Hfail : ConfigStore.load_failure Samples.invalid_custom
                      (Pathlib.of_str (lit "/home/u/custom.json"))).
    { apply (ConfigStore.malformed_json _ _ (lit "{ invalid json }"));
        evaluate. }
    apply (proj1 (proj2 (fallback_after_failed_load Samples.home
                           Samples.invalid_custom
                           (Pathlib.of_str (lit "/home/u/custom.json"))
                           ltac:(evaluate) Hfail)
                   ltac:(discriminate))).
    evaluate.
Defined.

(** C3 as stated fails: the default file holds text that is not JSON and
    is read-only. The parse fails, the target is the default path, and the
    attempt to write the fresh default raises [PermissionError]: nothing
    is written and nothing is returned. *)
Lemma fallback_write_refused :
  ConfigStore.config_file_to_load Samples.home Samples.read_only_invalid_default =
    (Ok (ConfigStore.DEFAULT_DATA_FILE Samples.home),
     Samples.read_only_invalid_default) /\
  ConfigStore.json_load Samples.read_only_invalid_default
    (ConfigStore.DEFAULT_DATA_FILE Samples.home) = Raise JSONDecodeError /\
  ConfigStore.load_last_config Samples.home Samples.read_only_invalid_default =
    (Raise PermissionError, Samples.read_only_invalid_default) /\
  ~ exists w',
      ConfigStore.load_last_config Samples.home Samples.read_only_invalid_default =
      (Ok (mkConfig (ConfigStore.DEFAULT_DATA_FILE Samples.home)
             ConfigStore.default_contents), w').
Proof.
  assert (H : ConfigStore.load_last_config Samples.home
                Samples.read_only_invalid_default =
              (Raise PermissionError, Samples.read_only_invalid_default))
    by evaluate.
  repeat split; try evaluate.
  intros [w' Hw']. rewrite H in Hw'. discriminate.
Qed.

(** C4. A pointer whose bytes are control characters is text that names
    no file, and the default is loaded; a pointer whose bytes are not
    UTF-8 makes [load_last_config] raise [UnicodeDecodeError] instead of
    falling back. *)
Theorem load_raises_on_undecodable_pointer :
  ConfigStore.load_last_config Samples.home Samples.control_bytes_pointer =
    (Ok (mkConfig (ConfigStore.DEFAULT_DATA_FILE Samples.home)
           Samples.sample_tickers), Samples.control_bytes_pointer) /\
  ConfigStore.load_last_config Samples.home Samples.undecodable_pointer =
    (Raise UnicodeDecodeError, Samples.undecodable_pointer).
Proof. split; evaluate. Qed.

(** C5. For every world the target is: the default path when the pointer
    is absent or cannot be read; the path the pointer's text names when
    that path exists, and the default path when it does not. But a
    pointer whose bytes are not UTF-8 is none of these: no target is
    chosen and the read raises [UnicodeDecodeError], as it does for the
    bytes FF FE. *)
Theorem target_not_chosen_on_undecodable_pointer :
  (forall (home : Path) (w : world),
     let pointer := ConfigStore.LAST_CONFIG_FILE home in
     let default_file := ConfigStore.DEFAULT_DATA_FILE home in
     ConfigStore.config_file_to_load home w =
     (match Os.stat w pointer, Os.read_bytes w pointer with
      | Raise _, _ => Ok default_file
      | Ok _, Raise _ => Ok default_file
      | Ok _, Ok data =>
          match Text.decode data with
          | Some s =>
              let named :=
                Pathlib.of_str (Text.strip (Text.universal_newlines s)) in
              Ok (if Os.exists_ w named then named else default_file)
          | None => Raise UnicodeDecodeError
          end
      end, w)) /\
  ConfigStore.config_file_to_load Samples.home Samples.undecodable_pointer =
    (Raise UnicodeDecodeError, Samples.undecodable_pointer).
Proof.
  split; [|evaluate].
  intros home w pointer default_file. subst pointer default_file.
  destruct (Os.stat w (ConfigStore.LAST_CONFIG_FILE home)) as [n|e] eqn:Hs.
  - assert (Hex : Os.exists_ w (ConfigStore.LAST_CONFIG_FILE home) = true)
      by (unfold Os.exists_; by rewrite Hs).
    destruct (Os.read_bytes w (ConfigStore.LAST_CONFIG_FILE home))
      as [data|e] eqn:Hb.
    + destruct (Text.decode data) as [s|] eqn:Hd.
      * apply ConfigFacts.target_from_pointer.
        unfold Os.read_text. by rewrite Hb, Hd.
      * by apply (ConfigFacts.target_undecodable_pointer home w data).
    + by apply (ConfigFacts.target_unreadable_pointer home w e).
  - apply ConfigFacts.target_without_pointer. unfold Os.exists_. by rewrite Hs.
Qed.

(** C8 (as amended). [save_last_config p] has returned. The absolute
    form of [p] is made of components as pathlib produces them, its
    string holds no carriage return and neither starts nor ends with white
    space, the pointer file may be read, and the file at that path loads.
    Then the configuration directory exists, the pointer file reads as
    that string, and [load_last_config] returns the file at that path
    with its JSON, writing nothing. *)
Theorem pointer_round_trip
    (home p : Path) (w w1 : world) (v : Json.value) :
  let q := Pathlib.absolute (cwd w) p in
  ConfigStore.save_last_config home p w = (Ok tt, w1) ->
  Pathlib.well_formed q = true ->
  Text.universal_newlines (Pathlib.to_str q) = Pathlib.to_str q ->
  Text.strip (Pathlib.to_str q) = Pathlib.to_str q ->
  Os.readable w1 (ConfigStore.LAST_CONFIG_FILE home) = true ->
  ConfigStore.json_load w1 q = Ok v ->
  Os.is_dir w1 (Pathlib.parent (ConfigStore.LAST_CONFIG_FILE home)) = true /\
  Os.read_text w1 (ConfigStore.LAST_CONFIG_FILE home) = Ok (Pathlib.to_str q) /\
  ConfigStore.load_last_config home w1 = (Ok (mkConfig q v), w1).
Proof.
  intros q Hsave Hwf Hnl Hstrip Hread Hload.
  destruct (SaveFacts.save_result home p w w1 Hsave)
    as (_ & Hdir & r & wr & data & Hstat & Henc).
  fold q in Henc.
  assert (Htext : Os.read_text w1 (ConfigStore.LAST_CONFIG_FILE home)
                  = Ok (Pathlib.to_str q)).
  { unfold Os.readable in Hread. rewrite Hstat in Hread. subst r.
    unfold Os.read_text, Os.read_bytes. rewrite Hstat.
    by rewrite (TextFacts.decode_encode _ _ Henc), Hnl. }
  split; [by rewrite SaveFacts.parent_pointer|]. split; [exact Htext|].
  assert (Ht : ConfigStore.config_file_to_load home w1 = (Ok q, w1)).
  { rewrite (ConfigFacts.target_from_pointer home w1 _ Htext), Hstrip.
    rewrite (PathFacts.of_str_to_str q Hwf (SaveFacts.absolute_is_absolute _ _)).
    destruct (LoadFacts.json_load_file w1 q v Hload) as (wr' & d & Hs).
    unfold Os.exists_. by rewrite Hs. }
  rewrite (ConfigFacts.load_unfold home w1 q Ht).
  by apply ConfigFacts.load_from_ok.
Qed.

Lemma pointer_round_trip_witness :
  let w1 := (ConfigStore.save_last_config Samples.home
               (Pathlib.of_str (lit "custom.json")) Samples.bare).2 in
  Os.is_dir w1 (Pathlib.parent (ConfigStore.LAST_CONFIG_FILE Samples.home)) = true /\
  Os.read_text w1 (ConfigStore.LAST_CONFIG_FILE Samples.home)
    = Ok (lit "/custom.json") /\
  ConfigStore.load_last_config Samples.home w1 =
    (Ok (mkConfig (Pathlib.of_str (lit "/custom.json"))
           (JObject [(lit "tickers",
                      JArray [JString (lit "TSLA"); JString (lit "NVDA")])])), w1).
Proof.
  intros w1.
  apply (pointer_round_trip Samples.home (Pathlib.of_str (lit "custom.json"))
           Samples.bare w1); subst w1; evaluate.
Defined.

(** C8 as stated fails: the data file's name ends in a space. The save
    succeeds and the file exists and parses, but the load strips the
    space from the pointer's text, finds no such file, and returns the
    default file. *)
Lemma round_trip_lost_on_trailing_space :
  let w1 := (ConfigStore.save_last_config Samples.home Samples.spaced_path
               Samples.with_spaced).2 in
  (ConfigStore.save_last_config Samples.home Samples.spaced_path
     Samples.with_spaced).1 = Ok tt /\
  ConfigStore.json_load w1 Samples.spaced_path =
    Ok (JObject [(lit "tickers", JArray [JString (lit "TSLA")])]) /\
  (ConfigStore.load_last_config Samples.home w1).1 =
    Ok (mkConfig (ConfigStore.DEFAULT_DATA_FILE Samples.home)
          Samples.sample_tickers) /\
  ConfigStore.DEFAULT_DATA_FILE Samples.home <> Samples.spaced_path.
Proof.
  cbv zeta. repeat split; try evaluate. intros H. by vm_compute in H.
Qed.

(** C9. When the default file exists, whatever it holds,
    [create_default_config_if_not_exists] returns and changes nothing.
    Running it a second time gives the result and the world of the first
    run. When the file is absent and can be created, it is created with
    the bytes of [{"tickers": []}] and loads as that value. *)
Theorem ensure_default_keeps_existing_file (home : Path) (w : world) :
  let default_file := ConfigStore.DEFAULT_DATA_FILE home in
  let run := ConfigStore.create_default_config_if_not_exists home in
  (Os.exists_ w default_file = true -> run w = (Ok tt, w)) /\
  run (run w).2 = run w /\
  (Os.exists_ w default_file = false ->
   Os.can_open_w w default_file = true ->
   run w = (Ok tt, Os.after_write w default_file ConfigStore.default_bytes) /\
   ConfigStore.json_load (run w).2 default_file = Ok ConfigStore.default_contents).
Proof.
  intros default_file run. subst run default_file.
  unfold ConfigStore.create_default_config_if_not_exists.
  assert (Hcreate : Os.can_open_w w (ConfigStore.DEFAULT_DATA_FILE home) = true ->
            ConfigStore.json_dump ConfigStore.default_contents
              (ConfigStore.DEFAULT_DATA_FILE home) w =
            (Ok tt, Os.after_write w (ConfigStore.DEFAULT_DATA_FILE home)
                      ConfigStore.default_bytes)).
  { intros Hopen. unfold ConfigStore.json_dump.
    by apply OsFacts.write_text_ok; [|apply ConfigFacts.encode_default]. }
  split; [|split].
  - by intros ->.
  - destruct (Os.exists_ w (ConfigStore.DEFAULT_DATA_FILE home)) eqn:Hex;
      cbn [negb snd]; [by rewrite Hex|].
    destruct (Os.can_open_w w (ConfigStore.DEFAULT_DATA_FILE home)) eqn:Hopen.
    + rewrite (Hcreate eq_refl). cbn [snd].
      destruct (OsFacts.stat_after_write w _ ConfigStore.default_bytes Hopen)
        as (r & wr & Hs).
      unfold Os.exists_ at 1. by rewrite Hs.
    + unfold ConfigStore.json_dump.
      destruct (OsFacts.write_text_fail w _
                  (Json.dumps 2 ConfigStore.default_contents) Hopen) as [e He].
      rewrite He. cbn [snd]. rewrite Hex. cbn [negb]. exact He.
  - intros Hex Hopen. rewrite Hex. cbn [negb]. rewrite (Hcreate Hopen).
    split; [reflexivity|]. cbn [snd]. unfold ConfigStore.json_load.
    rewrite (OsFacts.read_after_create w _ _ _ Hopen Hex ConfigFacts.encode_default).
    reflexivity.
Qed.

Lemma ensure_default_keeps_existing_file_witness :
  ConfigStore.create_default_config_if_not_exists Samples.home
    Samples.other_shape_default = (Ok tt, Samples.other_shape_default) /\
  ConfigStore.json_load
    (ConfigStore.create_default_config_if_not_exists Samples.home Samples.fresh).2
    (ConfigStore.DEFAULT_DATA_FILE Samples.home) = Ok ConfigStore.default_contents.
Proof.
  split.
  - apply (proj1 (ensure_default_keeps_existing_file Samples.home
                    Samples.other_shape_default)). evaluate.
  - apply (proj2 (proj2 (ensure_default_keeps_existing_file Samples.home
                           Samples.fresh))); evaluate.
Defined.

(** * Further properties *)

(** ** What the file operations leave alone *)

Module FrameFacts.
Import Os Frame.

Lemma only_adds_dirs_refl w : only_adds_dirs w w.
Proof. split; [done|]. intros k. destruct (node_at w k); auto. Qed.

Lemma only_adds_dirs_trans w1 w2 w3 :
  only_adds_dirs w1 w2 -> only_adds_dirs w2 w3 -> only_adds_dirs w1 w3.
Proof.
  intros [Hc1 H1] [Hc2 H2]. split; [congruence|]. intros k.
  specialize (H1 k). specialize (H2 k).
  destruct (node_at w1 k) as [n|].
  - by rewrite H1 in H2.
  - destruct H1 as [H1|H1]; rewrite H1 in H2; auto.
Qed.

Lemma only_adds_dirs_set_dir w k :
  node_at w k = None -> only_adds_dirs w (set_node w k Dir).
Proof.
  intros Hk. split; [done|]. intros k'.
  destruct (decide (k = k')) as [<-|Hne].
  - rewrite Hk. right. apply OsFacts.node_at_set_eq.
    intros ->. discriminate.
  - rewrite OsFacts.node_at_set_ne by done. destruct (node_at w k'); auto.
Qed.

Lemma adds_dirs_mkdir p : adds_dirs (mkdir p).
Proof.
  intros w r w'. unfold mkdir.
  destruct (Pathlib.has_nul p);
    [intros [= <- <-]; apply only_adds_dirs_refl|].
  destruct (node_at w (resolve w p)) eqn:Hn;
    [intros [= <- <-]; apply only_adds_dirs_refl|].
  destruct (node_at w (removelast (resolve w p))) as [[|? ? ?]|];
    intros [= <- <-]; try apply only_adds_dirs_refl.
  by apply only_adds_dirs_set_dir.
Qed.

Lemma adds_dirs_bind {A B} (m : io A) (k : A -> io B) :
  adds_dirs m -> (forall a, adds_dirs (k a)) -> adds_dirs (m ≫= k).
Proof.
  intros Hm Hk w r w'. unfold mbind, io_bind.
  destruct (m w) as [[a|e] w1] eqn:E.
  - intros H. exact (only_adds_dirs_trans _ _ _ (Hm _ _ _ E) (Hk a _ _ _ H)).
  - intros [= <- <-]. exact (Hm _ _ _ E).
Qed.

Lemma adds_dirs_try {A} (m : io A) handled (h : exn -> io A) :
  adds_dirs m -> (forall e, adds_dirs (h e)) ->
  adds_dirs (try_except m handled h).
Proof.
  intros Hm Hh w r w'. unfold try_except.
  destruct (m w) as [[a|e] w1] eqn:E.
  - intros [= <- <-]. exact (Hm _ _ _ E).
  - destruct (handled e).
    + intros H. exact (only_adds_dirs_trans _ _ _ (Hm _ _ _ E) (Hh e _ _ _ H)).
    + intros [= <- <-]. exact (Hm _ _ _ E).
Qed.

Lemma adds_dirs_check p e :
  adds_dirs (fun w => if is_dir w p then (Ok tt, w) else (Raise e, w)).
Proof.
  intros w r w'. case_match; intros [= <- <-]; apply only_adds_dirs_refl.
Qed.

Lemma adds_dirs_mkdir_exist_ok p : adds_dirs (mkdir_exist_ok p).
Proof.
  apply adds_dirs_try; [apply adds_dirs_mkdir|]. intros e. apply adds_dirs_check.
Qed.

Lemma adds_dirs_mkdir_parents a rparts : adds_dirs (mkdir_parents a rparts).
Proof.
  induction rparts as [|x up IH]; cbn [mkdir_parents];
    (apply adds_dirs_try; [apply adds_dirs_mkdir|]); intros e;
    destruct (bool_decide (e = FileNotFoundError));
    try apply adds_dirs_check.
  - intros w r w'. unfold raise. intros [= <- <-]. apply only_adds_dirs_refl.
  - apply adds_dirs_bind; [exact IH|]. intros _. apply adds_dirs_mkdir_exist_ok.
Qed.

(** [mkdir(parents=True, exist_ok=True)] raises an [OSError] or, for a
    path with a NUL, a [ValueError]; nothing else. *)
Lemma mkdir_raises p w e w' :
  mkdir p w = (Raise e, w') -> is_OSError e = true \/ e = ValueError.
Proof.
  unfold mkdir. repeat case_match; intros [= <- <-]; auto.
Qed.

Lemma mkdir_exist_ok_raises p w e w' :
  mkdir_exist_ok p w = (Raise e, w') -> is_OSError e = true \/ e = ValueError.
Proof.
  unfold mkdir_exist_ok, try_except.
  destruct (mkdir p w) as [[[]|e0] w1] eqn:E; [discriminate|].
  destruct (is_OSError e0 && _) eqn:Hh.
  - apply andb_true_iff in Hh as [Hos _].
    case_match; intros [= <- <-]. auto.
  - intros [= <- <-]. exact (mkdir_raises _ _ _ _ E).
Qed.

Lemma mkdir_parents_raises a rparts :
  forall w e w', mkdir_parents a rparts w = (Raise e, w') ->
    is_OSError e = true \/ e = ValueError.
Proof.
  induction rparts as [|x up IH]; intros w e w'; cbn [mkdir_parents];
    unfold try_except;
    destruct (mkdir _ w) as [[[]|e0] w1] eqn:E; try discriminate;
    destruct (is_OSError e0) eqn:Hos;
    try (intros [= <- <-]; exact (mkdir_raises _ _ _ _ E)).
  - destruct (bool_decide (e0 = FileNotFoundError)).
    + unfold raise. intros [= <- <-]. auto.
    + case_match; intros [= <- <-]. auto.
  - destruct (bool_decide (e0 = FileNotFoundError)).
    + unfold mbind, io_bind.
      destruct (mkdir_parents a up w1) as [[[]|e1] w2] eqn:E1.
      * apply mkdir_exist_ok_raises.
      * intros [= <- <-]. exact (IH _ _ _ E1).
    + case_match; intros [= <- <-]. auto.
Qed.

Lemma same_except_refl key w : same_except key w w.
Proof. by split. Qed.

Lemma same_except_set key w n : same_except key w (set_node w key n).
Proof. split; [done|]. intros k Hk. by apply OsFacts.node_at_set_ne. Qed.

Lemma same_except_after_write w p data :
  same_except (resolve w p) w (after_write w p data).
Proof.
  unfold after_write.
  destruct (node_at w (resolve w p)) as [[|? ? ?]|]; apply same_except_set.
Qed.

(** A write, whether it succeeds or fails, touches the node of its path
    only. *)
Lemma open_w_same_except p w r w' :
  open_w p w = (r, w') -> same_except (resolve w p) w w'.
Proof.
  unfold open_w. repeat case_match; intros [= <- <-];
    first [apply same_except_refl | apply same_except_set].
Qed.

Lemma write_same_except p s w r w' :
  write p s w = (r, w') -> same_except (resolve w p) w w'.
Proof.
  unfold write. repeat case_match; intros [= <- <-];
    first [apply same_except_refl | apply same_except_set].
Qed.

Lemma same_except_trans key w1 w2 w3 :
  same_except key w1 w2 -> same_except key w2 w3 -> same_except key w1 w3.
Proof.
  intros [Hc1 H1] [Hc2 H2]. split; [congruence|].
  intros k Hk. by rewrite (H2 k Hk), (H1 k Hk).
Qed.

Lemma write_text_same_except p s w r w' :
  write_text p s w = (r, w') -> same_except (resolve w p) w w'.
Proof.
  unfold write_text, mbind, io_bind.
  destruct (open_w p w) as [[[]|e] w1] eqn:E.
  - intros H. apply (same_except_trans _ _ w1).
    + exact (open_w_same_except _ _ _ _ E).
    + apply write_same_except in H.
      destruct (open_w_same_except _ _ _ _ E) as [Hc _].
      unfold resolve in *. by rewrite Hc in H.
  - intros [= <- <-]. exact (open_w_same_except _ _ _ _ E).
Qed.

End FrameFacts.

(** ** More on loading *)

Module MoreLoadFacts.
Import ConfigStore ConfigFacts.

Section WithHome.

Variable home : Path.

(** Where the target comes from: it is the default path, or the path
    the pointer's text names, which exists. *)
Lemma target_origin w target w' :
  config_file_to_load home w = (Ok target, w') ->
  target = DEFAULT_DATA_FILE home \/
  exists s, Os.read_text w (LAST_CONFIG_FILE home) = Ok s /\
            target = Pathlib.of_str (Text.strip s) /\
            Os.exists_ w target = true.
Proof.
  destruct (Os.exists_ w (LAST_CONFIG_FILE home)) eqn:Hex.
  2:{ rewrite (target_without_pointer home w Hex). intros [= <- _]. by left. }
  destruct (Os.read_bytes w (LAST_CONFIG_FILE home)) as [data|e] eqn:Hb.
  2:{ rewrite (target_unreadable_pointer home w e Hex Hb).
      intros [= <- _]. by left. }
  destruct (Text.decode data) as [s|] eqn:Hd.
  2:{ by rewrite (target_undecodable_pointer home w data Hb Hd). }
  assert (Hr : Os.read_text w (LAST_CONFIG_FILE home)
               = Ok (Text.universal_newlines s))
    by (unfold Os.read_text; by rewrite Hb, Hd).
  rewrite (target_from_pointer home w _ Hr).
  destruct (Os.exists_ w (Pathlib.of_str _)) eqn:Hp; intros [= <- _];
    [right; eauto|by left].
Qed.

(** The fallback from a target that fails comes to loading the default
    path directly. *)
Lemma load_from_failure_is_default w target :
  load_failure w target ->
  load_from home target w = load_from home (DEFAULT_DATA_FILE home) w.
Proof.
  intros Hf.
  destruct (decide (target = DEFAULT_DATA_FILE home)) as [->|Hne]; [done|].
  rewrite (load_from_other_failure home w target Hne Hf).
  unfold load_from. by rewrite bool_decide_eq_true_2.
Qed.

End WithHome.
End MoreLoadFacts.

(** X1. [load_last_config] writes nowhere but at the default path: the
    working directory and every other node are as before; and when it
    raises, nothing at all has changed. *)
Theorem load_touches_only_default (home : Path) (w : world) :
  let r := ConfigStore.load_last_config home w in
  Frame.same_except (Os.resolve w (ConfigStore.DEFAULT_DATA_FILE home)) w r.2 /\
  (forall e, r.1 = Raise e -> r.2 = w).
Proof.
  cbv zeta.
  destruct (ConfigStore.load_last_config home w) as [r w'] eqn:Hload.
  cbn [fst snd].
  assert (Hcreate : forall r0 w0,
            ConfigStore.create_default home w = (r0, w0) ->
            Frame.same_except
              (Os.resolve w (ConfigStore.DEFAULT_DATA_FILE home)) w w0 /\
            (forall e, r0 = Raise e -> w0 = w)).
  { intros r0 w0 Hc.
    apply LoadFacts.create_default_result in Hc
      as [(_ & -> & ->)|(_ & -> & e & ->)].
    - split; [apply FrameFacts.same_except_after_write|discriminate].
    - split; [apply FrameFacts.same_except_refl|done]. }
  destruct (ConfigFacts.target_cases home w) as (t & Ht & _).
  destruct t as [target|e].
  2:{ unfold ConfigStore.load_last_config, mbind, io_bind in Hload.
      rewrite Ht in Hload. injection Hload as <- <-.
      split; [apply FrameFacts.same_except_refl|done]. }
  rewrite (ConfigFacts.load_unfold home w target Ht) in Hload.
  apply LoadFacts.load_from_result in Hload
    as [(v & _ & -> & ->)|[(v & _ & _ & _ & -> & ->)|[(_ & _ & Hc)|(e & -> & -> & _)]]];
    try (split; [apply FrameFacts.same_except_refl|done]).
  by apply Hcreate.
Qed.

Lemma load_touches_only_default_witness :
  Os.node_at (ConfigStore.load_last_config Samples.home Samples.fresh).2
    Samples.cfg_dir = Some Dir /\
  (ConfigStore.load_last_config Samples.home Samples.undecodable_pointer).2
    = Samples.undecodable_pointer.
Proof.
  split.
  - etransitivity.
    + apply (proj1 (load_touches_only_default Samples.home Samples.fresh)).
      discriminate.
    + evaluate.
  - apply (proj2 (load_touches_only_default Samples.home
                    Samples.undecodable_pointer) UnicodeDecodeError).
    evaluate.
Defined.

(** X2. When the file chosen as target cannot be loaded (it is missing,
    cannot be read, or is not JSON), the whole call gives what loading the
    default path gives: the same result and the same world. *)
Theorem failed_target_loads_as_default
    (home : Path) (w : world) (target : Path) :
  ConfigStore.config_file_to_load home w = (Ok target, w) ->
  ConfigStore.load_failure w target ->
  ConfigStore.load_last_config home w =
  ConfigStore.load_from home (ConfigStore.DEFAULT_DATA_FILE home) w.
Proof.
  intros Ht Hf. rewrite (ConfigFacts.load_unfold home w target Ht).
  by apply MoreLoadFacts.load_from_failure_is_default.
Qed.

Lemma failed_target_loads_as_default_witness :
  ConfigStore.load_last_config Samples.home Samples.invalid_custom =
  ConfigStore.load_from Samples.home
    (ConfigStore.DEFAULT_DATA_FILE Samples.home) Samples.invalid_custom.
Proof.
  apply (failed_target_loads_as_default Samples.home Samples.invalid_custom
           (Pathlib.of_str (lit "/home/u/custom.json"))).
  - evaluate.
  - apply (ConfigStore.malformed_json _ _ (lit "{ invalid json }")); evaluate.
Defined.

(** X4. The path of the [Config] that [load_last_config] returns is the
    default path or the path that the stripped text of the pointer names,
    and that path exists. *)
Theorem loaded_path_is_pointer_or_default
    (home : Path) (w w' : world) (cfg : Config) :
  ConfigStore.load_last_config home w = (Ok cfg, w') ->
  config_path cfg = ConfigStore.DEFAULT_DATA_FILE home \/
  exists s, Os.read_text w (ConfigStore.LAST_CONFIG_FILE home) = Ok s /\
            config_path cfg = Pathlib.of_str (Text.strip s) /\
            Os.exists_ w (config_path cfg) = true.
Proof.
  intros Hload.
  destruct (ConfigFacts.target_cases home w) as (t & Ht & _).
  destruct t as [target|e].
  2:{ unfold ConfigStore.load_last_config, mbind, io_bind in Hload.
      by rewrite Ht in Hload. }
  rewrite (ConfigFacts.load_unfold home w target Ht) in Hload.
  apply LoadFacts.load_from_result in Hload
    as [(v & _ & Hr & _)|[(v & _ & _ & _ & Hr & _)|[(_ & _ & Hc)|(e & ? & _)]]];
    [| | |discriminate].
  - injection Hr as ->. cbn [config_path].
    exact (MoreLoadFacts.target_origin home w target w Ht).
  - injection Hr as ->. by left.
  - apply LoadFacts.create_default_result in Hc
      as [(_ & Hr & _)|(_ & _ & e & ?)]; [|discriminate].
    injection Hr as ->. by left.
Qed.

Lemma loaded_path_is_pointer_or_default_witness :
  Pathlib.of_str (lit "/home/u/custom.json")
    = ConfigStore.DEFAULT_DATA_FILE Samples.home \/
  exists s,
    Os.read_text Samples.with_custom (ConfigStore.LAST_CONFIG_FILE Samples.home)
      = Ok s /\
    Pathlib.of_str (lit "/home/u/custom.json") = Pathlib.of_str (Text.strip s) /\
    Os.exists_ Samples.with_custom (Pathlib.of_str (lit "/home/u/custom.json"))
      = true.
Proof.
  apply (loaded_path_is_pointer_or_default Samples.home Samples.with_custom
           Samples.with_custom
           (mkConfig (Pathlib.of_str (lit "/home/u/custom.json"))
              (JObject [(lit "tickers",
                         JArray [JString (lit "TSLA"); JString (lit "NVDA")])]))).
  evaluate.
Defined.

(** ** More on the default file and on saving *)

Module MoreSaveFacts.
Import ConfigStore ConfigFacts.

Section WithHome.

Variable home : Path.

Lemma pointer_key_not_default w :
  Os.resolve w (LAST_CONFIG_FILE home) <> Os.resolve w (DEFAULT_DATA_FILE home).
Proof.
  assert (Hl : parts (LAST_CONFIG_FILE home) =
               parts (CONFIG_DIR home) ++ [lit ".last_config"]) by reflexivity.
  assert (Hd : parts (DEFAULT_DATA_FILE home) =
               parts (CONFIG_DIR home) ++ [DEFAULT_DATA_FILE_NAME])
    by reflexivity.
  assert (Ha : anchor_of (LAST_CONFIG_FILE home) =
               anchor_of (DEFAULT_DATA_FILE home)) by reflexivity.
  unfold Os.resolve. rewrite Ha, Hl, Hd.
  destruct (anchor_of (DEFAULT_DATA_FILE home)); rewrite ?app_assoc;
    intros E; apply app_inj_tail in E as [_ E]; discriminate.
Qed.

(** Whether a path exists is a matter of its own node. *)
Lemma exists_same_except key w w' p :
  Frame.same_except key w w' -> Os.resolve w p <> key ->
  Os.exists_ w' p = Os.exists_ w p.
Proof.
  intros [Hc Hn] Hk. unfold Os.exists_, Os.stat.
  assert (Hr : Os.resolve w' p = Os.resolve w p)
    by (unfold Os.resolve; by rewrite Hc).
  by rewrite Hr, (Hn _ Hk).
Qed.

(** What [create_default_config_if_not_exists] comes to, in every case. *)
Lemma ensure_default_result w r w' :
  create_default_config_if_not_exists home w = (r, w') ->
  (Os.exists_ w (DEFAULT_DATA_FILE home) = true /\ r = Ok tt /\ w' = w) \/
  (Os.exists_ w (DEFAULT_DATA_FILE home) = false /\
   Os.can_open_w w (DEFAULT_DATA_FILE home) = true /\ r = Ok tt /\
   w' = Os.after_write w (DEFAULT_DATA_FILE home) default_bytes) \/
  (Os.exists_ w (DEFAULT_DATA_FILE home) = false /\
   Os.can_open_w w (DEFAULT_DATA_FILE home) = false /\
   w' = w /\ exists e, r = Raise e).
Proof.
  unfold create_default_config_if_not_exists, json_dump.
  destruct (Os.exists_ w (DEFAULT_DATA_FILE home)) eqn:Hex; cbn [negb].
  - intros [= <- <-]. by left.
  - destruct (Os.can_open_w w (DEFAULT_DATA_FILE home)) eqn:Hopen.
    + rewrite (OsFacts.write_text_ok _ _ _ _ Hopen encode_default).
      intros [= <- <-]. right. by left.
    + destruct (OsFacts.write_text_fail w _
                  (Json.dumps 2 default_contents) Hopen) as [e ->].
      intros [= <- <-]. right. right. eauto.
Qed.

(** The fresh default file loads as [{"tickers": []}]. *)
Lemma fresh_default_loads w :
  Os.exists_ w (DEFAULT_DATA_FILE home) = false ->
  Os.can_open_w w (DEFAULT_DATA_FILE home) = true ->
  json_load (Os.after_write w (DEFAULT_DATA_FILE home) default_bytes)
    (DEFAULT_DATA_FILE home) = Ok default_contents.
Proof.
  intros Hex Hopen. unfold json_load.
  by rewrite (OsFacts.read_after_create w _ _ _ Hopen Hex encode_default).
Qed.

(** The three steps of a save. *)
Lemma save_steps p w r w1 :
  save_last_config home p w = (r, w1) ->
  exists ra wa,
    Os.makedirs (CONFIG_DIR home) w = (ra, wa) /\
    match ra with
    | Raise e => r = Raise e /\ w1 = wa
    | Ok _ =>
        exists rb wb,
          Os.open_w (LAST_CONFIG_FILE home) wa = (rb, wb) /\
          match rb with
          | Raise e => r = Raise e /\ w1 = wb
          | Ok _ =>
              Os.write (LAST_CONFIG_FILE home)
                (Pathlib.to_str (Pathlib.absolute (cwd wb) p)) wb = (r, w1)
          end
    end.
Proof.
  unfold save_last_config. rewrite SaveFacts.parent_pointer.
  unfold mbind, io_bind.
  destruct (Os.makedirs (CONFIG_DIR home) w) as [[[]|e] wa] eqn:Ea.
  - destruct (Os.open_w (LAST_CONFIG_FILE home) wa) as [[[]|e] wb] eqn:Eb.
    + intros H. exists (Ok tt), wa. split; [done|].
      exists (Ok tt), wb. by split.
    + intros [= <- <-]. exists (Ok tt), wa. split; [done|].
      exists (Raise e), wb. by split.
  - intros [= <- <-]. exists (Raise e), wa. by split.
Qed.

End WithHome.
End MoreSaveFacts.

(** X5. When [create_default_config_if_not_exists] returns, the default
    path exists. Whatever way it ends, only the node of the default path
    can have changed, and nothing has changed when it raises. *)
Theorem ensure_default_makes_it_exist
    (home : Path) (w w' : world) (r : result unit) :
  ConfigStore.create_default_config_if_not_exists home w = (r, w') ->
  (r = Ok tt -> Os.exists_ w' (ConfigStore.DEFAULT_DATA_FILE home) = true) /\
  Frame.same_except (Os.resolve w (ConfigStore.DEFAULT_DATA_FILE home)) w w' /\
  (forall e, r = Raise e -> w' = w).
Proof.
  intros H. apply MoreSaveFacts.ensure_default_result in H
    as [(Hex & -> & ->)|[(_ & Hopen & -> & ->)|(_ & _ & -> & e & ->)]].
  - split; [done|]. split; [apply FrameFacts.same_except_refl|done].
  - split; [|split; [apply FrameFacts.same_except_after_write|done]].
    intros _.
    destruct (OsFacts.stat_after_write w _ ConfigStore.default_bytes Hopen)
      as (r & wr & Hs).
    unfold Os.exists_. by rewrite Hs.
  - split; [done|]. split; [apply FrameFacts.same_except_refl|done].
Qed.

Lemma ensure_default_makes_it_exist_witness :
  Os.exists_
    (ConfigStore.create_default_config_if_not_exists Samples.home Samples.fresh).2
    (ConfigStore.DEFAULT_DATA_FILE Samples.home) = true.
Proof.
  apply (proj1 (ensure_default_makes_it_exist Samples.home Samples.fresh
                  (ConfigStore.create_default_config_if_not_exists
                     Samples.home Samples.fresh).2 (Ok tt)
                  ltac:(evaluate)) eq_refl).
Defined.

(** X6. First run: neither the pointer nor the default file exists. Once
    [create_default_config_if_not_exists] has returned,
    [load_last_config] returns the default path with [{"tickers": []}]
    and writes nothing. *)
Theorem first_run_loads_fresh_default (home : Path) (w w1 : world) :
  Os.exists_ w (ConfigStore.LAST_CONFIG_FILE home) = false ->
  Os.exists_ w (ConfigStore.DEFAULT_DATA_FILE home) = false ->
  ConfigStore.create_default_config_if_not_exists home w = (Ok tt, w1) ->
  ConfigStore.load_last_config home w1 =
  (Ok (mkConfig (ConfigStore.DEFAULT_DATA_FILE home)
         ConfigStore.default_contents), w1).
Proof.
  intros Hptr Habsent Hrun.
  apply MoreSaveFacts.ensure_default_result in Hrun
    as [(Hex & _)|[(_ & Hopen & _ & ->)|(_ & _ & _ & e & ?)]];
    [congruence| |discriminate].
  assert (Hptr' : Os.exists_
            (Os.after_write w (ConfigStore.DEFAULT_DATA_FILE home)
               ConfigStore.default_bytes)
            (ConfigStore.LAST_CONFIG_FILE home) = false).
  { rewrite <- Hptr.
    apply (MoreSaveFacts.exists_same_except _ _ _ _
             (FrameFacts.same_except_after_write w _ _)).
    apply MoreSaveFacts.pointer_key_not_default. }
  rewrite (ConfigFacts.load_unfold home _ _
             (ConfigFacts.target_without_pointer home _ Hptr')).
  apply ConfigFacts.load_from_ok.
  by apply MoreSaveFacts.fresh_default_loads.
Qed.

Lemma first_run_loads_fresh_default_witness :
  let w1 := (ConfigStore.create_default_config_if_not_exists
               Samples.home Samples.fresh).2 in
  ConfigStore.load_last_config Samples.home w1 =
  (Ok (mkConfig (ConfigStore.DEFAULT_DATA_FILE Samples.home)
         ConfigStore.default_contents), w1).
Proof.
  intros w1.
  apply (first_run_loads_fresh_default Samples.home Samples.fresh w1);
    subst w1; evaluate.
Defined.

(** X7. [save_last_config], however it ends, leaves the working
    directory and every node that was there, the pointer file apart, as
    they were; what it adds elsewhere is directories. *)
Theorem save_keeps_other_files
    (home p : Path) (w w1 : world) (r : result unit) :
  ConfigStore.save_last_config home p w = (r, w1) ->
  cwd w1 = cwd w /\
  forall k, k <> Os.resolve w (ConfigStore.LAST_CONFIG_FILE home) ->
    match Os.node_at w k with
    | Some n => Os.node_at w1 k = Some n
    | None => Os.node_at w1 k = None \/ Os.node_at w1 k = Some Dir
    end.
Proof.
  intros Hsave.
  destruct (MoreSaveFacts.save_steps home p w r w1 Hsave)
    as (ra & wa & Ea & Hrest).
  pose proof (FrameFacts.adds_dirs_mkdir_parents _ _ _ _ _ Ea) as [Hca Hna].
  assert (Hgoal : forall w2,
            Frame.same_except
              (Os.resolve wa (ConfigStore.LAST_CONFIG_FILE home)) wa w2 ->
            cwd w2 = cwd w /\
            forall k, k <> Os.resolve w (ConfigStore.LAST_CONFIG_FILE home) ->
              match Os.node_at w k with
              | Some n => Os.node_at w2 k = Some n
              | None => Os.node_at w2 k = None \/ Os.node_at w2 k = Some Dir
              end).
  { intros w2 [Hc2 Hn2]. split; [congruence|]. intros k Hk.
    assert (Hr : Os.resolve wa (ConfigStore.LAST_CONFIG_FILE home) =
                 Os.resolve w (ConfigStore.LAST_CONFIG_FILE home))
      by (unfold Os.resolve; by rewrite Hca).
    rewrite Hr in Hn2. rewrite (Hn2 k Hk). apply Hna. }
  destruct ra as [[]|e].
  2:{ destruct Hrest as [-> ->]. apply Hgoal, FrameFacts.same_except_refl. }
  destruct Hrest as (rb & wb & Eb & Hrest).
  pose proof (FrameFacts.open_w_same_except _ _ _ _ Eb) as Hb.
  destruct rb as [[]|e].
  2:{ destruct Hrest as [-> ->]. by apply Hgoal. }
  apply Hgoal. apply (FrameFacts.same_except_trans _ _ wb); [exact Hb|].
  apply FrameFacts.write_same_except in Hrest.
  destruct Hb as [Hcb _]. unfold Os.resolve in *. by rewrite Hcb in Hrest.
Qed.

Lemma save_keeps_other_files_witness :
  Os.node_at
    (ConfigStore.save_last_config Samples.home
       (Pathlib.of_str (lit "/home/u/custom.json")) Samples.with_custom).2
    Samples.custom_key = Os.node_at Samples.with_custom Samples.custom_key.
Proof.
  pose proof (proj2 (save_keeps_other_files Samples.home
                       (Pathlib.of_str (lit "/home/u/custom.json"))
                       Samples.with_custom _ _ eq_refl)
                Samples.custom_key ltac:(discriminate)) as H.
  exact H.
Defined.

(** X8. When [save_last_config] ends in [UnicodeEncodeError] (the
    absolute path holds a lone surrogate), the pointer file has already
    been opened for writing: it is left empty. *)
Theorem save_unencodable_empties_pointer (home p : Path) (w w1 : world) :
  ConfigStore.save_last_config home p w = (Raise UnicodeEncodeError, w1) ->
  Text.encode (Pathlib.to_str (Pathlib.absolute (cwd w) p)) = None /\
  exists r wr,
    Os.stat w1 (ConfigStore.LAST_CONFIG_FILE home) = Ok (File r wr []).
Proof.
  intros Hsave.
  destruct (MoreSaveFacts.save_steps home p w _ w1 Hsave)
    as (ra & wa & Ea & Hrest).
  destruct ra as [[]|e].
  2:{ destruct Hrest as [[= <-] _].
      destruct (FrameFacts.mkdir_parents_raises _ _ _ _ _ Ea); discriminate. }
  destruct Hrest as (rb & wb & Eb & Hrest).
  pose proof (DirFacts.keeps_cwd_mkdir_parents _ _ _ _ _ Ea) as Hca.
  pose proof (DirFacts.keeps_cwd_open_w _ _ _ _ Eb) as Hcb.
  destruct rb as [[]|e].
  2:{ destruct Hrest as [[= <-] _]. revert Eb. unfold Os.open_w.
      repeat case_match; discriminate. }
  revert Hrest. unfold Os.write. rewrite Hcb, Hca.
  destruct (Text.encode _) as [data|]; [by repeat case_match|].
  intros [= <-]. split; [done|].
  revert Eb. unfold Os.open_w, Os.stat.
  destruct (Pathlib.has_nul (ConfigStore.LAST_CONFIG_FILE home));
    [discriminate|].
  set (k := Os.resolve wa (ConfigStore.LAST_CONFIG_FILE home)).
  destruct (Os.node_at wa k) as [[|r wr d]|] eqn:Hn; [discriminate| |].
  - destruct wr; [|discriminate]. intros [= <-]. exists r, true.
    change (Os.resolve (Os.set_node wa k (File r true []))
              (ConfigStore.LAST_CONFIG_FILE home)) with k.
    rewrite OsFacts.node_at_set_eq; [done|].
    intros E. rewrite E in Hn. discriminate.
  - destruct (Os.node_at wa (removelast k)) as [[|? ? ?]|]; try discriminate.
    intros [= <-]. exists true, true.
    change (Os.resolve (Os.set_node wa k (File true true []))
              (ConfigStore.LAST_CONFIG_FILE home)) with k.
    rewrite OsFacts.node_at_set_eq; [done|].
    intros E. rewrite E in Hn. discriminate.
Qed.

Lemma save_unencodable_empties_pointer_witness :
  exists r wr,
    Os.stat
      (ConfigStore.save_last_config Samples.home MoreSamples.surrogate_path
         Samples.with_custom).2
      (ConfigStore.LAST_CONFIG_FILE Samples.home) = Ok (File r wr []).
Proof.
  apply (proj2 (save_unencodable_empties_pointer Samples.home
                  MoreSamples.surrogate_path Samples.with_custom _
                  ltac:(evaluate))).
Defined.

(** ** More on the ticker lookup *)

Module MoreTickerFacts.
Import TickerLookup.

Section WithProvider.
Variable upper : str -> str.
Variable provider : nat -> str -> lookup.

Local Abbreviation extend := (TickerLookup.extend upper).
Local Abbreviation answer := (TickerLookup.answer upper provider).

(** How a run over the markets [ms] ends, read back from its result. *)
Lemma try_markets_inversion ms :
  forall ticker t r t',
    try_markets upper provider ms ticker t = (r, t') ->
    match r with
    | Ok (Some name) =>
        exists pre m post,
          ms = pre ++ m :: post /\
          (forall i m', pre !! i = Some m' ->
             no_match (answer t ticker i m') = true) /\
          answer t ticker (length pre) m = Info (Some name) /\
          t' = extend t ticker (pre ++ [m])
    | Ok None =>
        (forall i m', ms !! i = Some m' ->
           no_match (answer t ticker i m') = true) /\
        t' = extend t ticker ms
    | Raise e =>
        exists pre m post,
          ms = pre ++ m :: post /\
          (forall i m', pre !! i = Some m' ->
             no_match (answer t ticker i m') = true) /\
          answer t ticker (length pre) m = Throws e /\
          is_ValueError e = false /\
          t' = extend t ticker (pre ++ [m])
    end.
Proof.
  induction ms as [|m ms IH]; intros ticker t r t'.
  - cbn [try_markets]. intros [= <- <-]. split.
    + intros i m' Hi. by destruct i.
    + symmetry. apply TickerLookupFacts.extend_nil.
  - rewrite TickerLookupFacts.try_markets_step.
    assert (Hstop : forall r0 : result (option str),
              (r0, extend t ticker [m]) = (r, t') ->
              t' = extend t ticker ([] ++ [m]) /\ r0 = r)
      by (by intros r0 [= <- <-]).
    assert (Hgo : no_match (answer t ticker 0 m) = true ->
              try_markets upper provider ms ticker (extend t ticker [m])
                = (r, t') ->
              match r with
              | Ok (Some name) =>
                  exists pre m0 post,
                    m :: ms = pre ++ m0 :: post /\
                    (forall i m', pre !! i = Some m' ->
                       no_match (answer t ticker i m') = true) /\
                    answer t ticker (length pre) m0 = Info (Some name) /\
                    t' = extend t ticker (pre ++ [m0])
              | Ok None =>
                  (forall i m', (m :: ms) !! i = Some m' ->
                     no_match (answer t ticker i m') = true) /\
                  t' = extend t ticker (m :: ms)
              | Raise e =>
                  exists pre m0 post,
                    m :: ms = pre ++ m0 :: post /\
                    (forall i m', pre !! i = Some m' ->
                       no_match (answer t ticker i m') = true) /\
                    answer t ticker (length pre) m0 = Throws e /\
                    is_ValueError e = false /\
                    t' = extend t ticker (pre ++ [m0])
              end).
    { intros Hm Hrun. specialize (IH _ _ _ _ Hrun).
      assert (Hshift : forall pre : list Market,
                (forall i m', pre !! i = Some m' ->
                   no_match (answer (extend t ticker [m]) ticker i m') = true) ->
                forall i m', (m :: pre) !! i = Some m' ->
                   no_match (answer t ticker i m') = true).
      { intros pre Hpre [|i] m' Hi.
        - injection Hi as <-. exact Hm.
        - rewrite <- (TickerLookupFacts.answer_shift upper provider t ticker m).
          by apply Hpre. }
      destruct r as [[name|]|e].
      - destruct IH as (pre & m0 & post & -> & Hpre & Hans & ->).
        exists (m :: pre), m0, post. split; [done|]. split; [by apply Hshift|].
        split; [cbn [length];
          by rewrite <- (TickerLookupFacts.answer_shift upper provider t ticker m)|].
        symmetry. apply (TickerLookupFacts.extend_cons upper t ticker m).
      - destruct IH as (Hall & ->). split; [by apply Hshift|].
        symmetry. apply (TickerLookupFacts.extend_cons upper t ticker m).
      - destruct IH as (pre & m0 & post & -> & Hpre & Hans & Hv & ->).
        exists (m :: pre), m0, post. split; [done|]. split; [by apply Hshift|].
        split; [cbn [length];
          by rewrite <- (TickerLookupFacts.answer_shift upper provider t ticker m)|]. split; [done|].
        symmetry. apply (TickerLookupFacts.extend_cons upper t ticker m). }
    destruct (answer t ticker 0 m) as [[name|]|e] eqn:Ha.
    + intros H. destruct (Hstop _ H) as [-> <-].
      exists [], m, ms. split; [done|]. split; [by intros []|]. by split.
    + by apply Hgo.
    + destruct (is_ValueError e) eqn:Hv; [by apply Hgo|].
      intros H. destruct (Hstop _ H) as [-> <-].
      exists [], m, ms. split; [done|]. split; [by intros []|]. by repeat split.
Qed.

(** Tickers with the same upper-case form are looked up alike. *)
Lemma try_markets_same_upper ms ticker1 ticker2 :
  upper ticker1 = upper ticker2 ->
  forall t, try_markets upper provider ms ticker1 t =
            try_markets upper provider ms ticker2 t.
Proof.
  intros Hup. induction ms as [|m ms IH]; intros t; [done|].
  cbn [try_markets]. rewrite Hup.
  destruct (provider _ _) as [[name|]|e]; [done|apply IH|].
  destruct (is_ValueError e); [apply IH|done].
Qed.

(** A call makes at least one lookup. *)
Lemma company_name_calls ticker t :
  exists k, (1 <= k <= 4)%nat /\
    (get_company_name_from_ticker upper provider ticker t).2 =
    extend t ticker (take k markets).
Proof.
  unfold get_company_name_from_ticker, markets.
  rewrite TickerLookupFacts.try_markets_step.
  destruct (TickerLookupFacts.try_markets_calls upper provider
              [USA; ITA; FRA] ticker (extend t ticker [STO]))
    as (k & Hk & Heq).
  assert (Hgo : exists k', (1 <= k' <= 4)%nat /\
            (try_markets upper provider [USA; ITA; FRA] ticker
               (extend t ticker [STO])).2 =
            extend t ticker (take k' [STO; USA; ITA; FRA])).
  { exists (S k). split; [simpl in Hk; lia|]. rewrite Heq.
    symmetry. apply (TickerLookupFacts.extend_cons upper t ticker STO). }
  assert (Hstop : forall r : result (option str),
            exists k', (1 <= k' <= 4)%nat /\
              (r, extend t ticker [STO]).2 =
              extend t ticker (take k' [STO; USA; ITA; FRA])).
  { intros r. exists 1%nat. split; [lia|done]. }
  destruct (TickerLookup.answer upper provider t ticker 0 STO)
    as [[name|]|e]; auto.
  destruct (is_ValueError e); auto.
Qed.

End WithProvider.
End MoreTickerFacts.

(** C10. The market table is [.ST], the empty suffix, [.MI], [.PA] in
    this order, the Stockholm suffix before the bare symbol. Every call
    makes between one and four lookups, the i-th of them for
    [upper ticker] followed by the i-th suffix of that table, so the
    first lookup is always the Stockholm one. The walk goes on exactly
    while the lookups give no match: every lookup but the last gave no
    name or a [ValueError], and a walk that ends before the fourth suffix
    ended on a name or on another exception. *)
Theorem market_suffix_table_order
    (upper : str -> str) (provider : nat -> str -> TickerLookup.lookup)
    (ticker : str) (t : TickerLookup.trace) :
  let table := [lit ".ST"; []; lit ".MI"; lit ".PA"] in
  let t' :=
    (TickerLookup.get_company_name_from_ticker upper provider ticker t).2 in
  let lookup_at (i : nat) (suffix : str) :=
    provider (length (TickerLookup.calls t) + i)%nat (upper ticker ++ suffix) in
  map TickerLookup.value TickerLookup.markets = table
  /\
  exists k, (1 <= k <= 4)%nat /\
    TickerLookup.calls t'
    = TickerLookup.calls t ++
      map (fun suffix => upper ticker ++ suffix) (take k table) /\
    (forall i suffix, (S i < k)%nat -> table !! i = Some suffix ->
       TickerLookup.no_match (lookup_at i suffix) = true) /\
    (forall suffix, (k < 4)%nat -> table !! (k - 1)%nat = Some suffix ->
       TickerLookup.no_match (lookup_at (k - 1)%nat suffix) = false).
Proof.
  intros table t' lookup_at. split; [reflexivity|].
  subst t'.
  destruct (TickerLookup.get_company_name_from_ticker upper provider ticker t)
    as [r t'] eqn:Hrun.
  pose proof (MoreTickerFacts.try_markets_inversion upper provider
                TickerLookup.markets ticker t r t' Hrun) as Hinv.
  assert (Hstop : forall pre m post (o : TickerLookup.lookup),
    TickerLookup.markets = pre ++ m :: post ->
    (forall i m', pre !! i = Some m' ->
       TickerLookup.no_match
         (TickerLookup.answer upper provider t ticker i m') = true) ->
    TickerLookup.answer upper provider t ticker (length pre) m = o ->
    TickerLookup.no_match o = false ->
    t' = TickerLookup.extend upper t ticker (pre ++ [m]) ->
    exists k, (1 <= k <= 4)%nat /\
      TickerLookup.calls (r, t').2
      = TickerLookup.calls t ++
        map (fun suffix => upper ticker ++ suffix) (take k table) /\
      (forall i suffix, (S i < k)%nat -> table !! i = Some suffix ->
         TickerLookup.no_match (lookup_at i suffix) = true) /\
      (forall suffix, (k < 4)%nat -> table !! (k - 1)%nat = Some suffix ->
         TickerLookup.no_match (lookup_at (k - 1)%nat suffix) = false)).
  { intros pre m post o Hms Hpre Hans Ho ->.
    exists (S (length pre)).
    assert (Hlen : (length pre < 4)%nat).
    { apply (f_equal length) in Hms. rewrite length_app in Hms.
      simpl in Hms. lia. }
    assert (Htab : forall i suffix, table !! i = Some suffix ->
              exists m', TickerLookup.markets !! i = Some m' /\
                         TickerLookup.value m' = suffix).
    { intros i suffix Hi.
      change table with (map TickerLookup.value TickerLookup.markets) in Hi.
      rewrite list_lookup_fmap in Hi.
      destruct (TickerLookup.markets !! i) as [m'|]; [|discriminate].
      exists m'. split; [done|]. by injection Hi. }
    split; [lia|]. split; [|split].
    - cbn [snd TickerLookup.extend TickerLookup.calls]. f_equal.
      change table with (map TickerLookup.value TickerLookup.markets).
      rewrite Hms, firstn_map.
      replace (S (length pre)) with (length (pre ++ [m]))
        by (rewrite length_app; simpl; lia).
      replace (pre ++ m :: post) with ((pre ++ [m]) ++ post)
        by (by rewrite <- app_assoc).
      rewrite take_app_length, map_map. reflexivity.
    - intros i suffix Hi Hsuf.
      destruct (Htab i suffix Hsuf) as (m' & Hm' & <-).
      apply (Hpre i m'). rewrite Hms in Hm'.
      rewrite lookup_app_l in Hm' by lia. exact Hm'.
    - intros suffix _ Hsuf.
      replace (S (length pre) - 1)%nat with (length pre) in * by lia.
      destruct (Htab _ suffix Hsuf) as (m' & Hm' & <-).
      rewrite Hms in Hm'. rewrite list_lookup_middle in Hm' by done.
      injection Hm' as <-.
      unfold lookup_at. fold (TickerLookup.symbol upper ticker m).
      fold (TickerLookup.answer upper provider t ticker (length pre) m).
      by rewrite Hans. }
  destruct r as [[name|]|e].
  - destruct Hinv as (pre & m & post & Hms & Hpre & Hans & Ht').
    by apply (Hstop pre m post _ Hms Hpre Hans).
  - destruct Hinv as (Hall & ->). exists 4%nat.
    split; [lia|]. split; [reflexivity|]. split; [|lia].
    intros i suffix _ Hsuf.
    change table with (map TickerLookup.value TickerLookup.markets) in Hsuf.
    rewrite list_lookup_fmap in Hsuf.
    destruct (TickerLookup.markets !! i) as [m'|] eqn:Hm'; [|discriminate].
    injection Hsuf as <-. by apply (Hall i m').
  - destruct Hinv as (pre & m & post & Hms & Hpre & Hans & Hv & Ht').
    by apply (Hstop pre m post _ Hms Hpre Hans).
Qed.

(** X9. A lookup that raises anything but a [ValueError] ends the call
    at once: the exception leaves [get_company_name_from_ticker] and the
    markets after it are not tried. *)
Theorem company_name_other_exception_propagates
    (upper : str -> str) (provider : nat -> str -> TickerLookup.lookup)
    (ticker : str) (t : TickerLookup.trace)
    (pre : list Market) (m : Market) (post : list Market) (e : exn) :
  TickerLookup.markets = pre ++ m :: post ->
  (forall i m', pre !! i = Some m' ->
     TickerLookup.no_match
       (TickerLookup.answer upper provider t ticker i m') = true) ->
  TickerLookup.answer upper provider t ticker (length pre) m
    = TickerLookup.Throws e ->
  TickerLookup.is_ValueError e = false ->
  TickerLookup.get_company_name_from_ticker upper provider ticker t =
  (Raise e, TickerLookup.extend upper t ticker (pre ++ [m])).
Proof.
  intros Hms Hpre Hm Hv.
  unfold TickerLookup.get_company_name_from_ticker. rewrite Hms.
  rewrite TickerLookupFacts.try_markets_skip by exact Hpre.
  rewrite TickerLookupFacts.try_markets_step.
  replace (TickerLookup.answer upper provider
             (TickerLookup.extend upper t ticker pre) ticker 0 m)
    with (TickerLookup.Throws e).
  - rewrite Hv. f_equal. unfold TickerLookup.extend. simpl.
    rewrite !map_app, <- !app_assoc. reflexivity.
  - rewrite <- Hm. unfold TickerLookup.answer, TickerLookup.extend.
    simpl. rewrite length_app, length_map. f_equal. lia.
Qed.

Lemma company_name_other_exception_propagates_witness :
  TickerLookup.get_company_name_from_ticker TickerLookup.ascii_upper
    (fun n _ => match n with
                | 1%nat => TickerLookup.Throws PermissionError
                | _ => TickerLookup.Info None
                end)
    (lit "aapl") TickerLookup.start =
  (Raise PermissionError,
   TickerLookup.mkTrace [lit "AAPL.ST"; lit "AAPL"] [lit "AAPL.ST"; lit "AAPL"]).
Proof.
  etransitivity.
  - apply (company_name_other_exception_propagates _ _ _ _
             [STO] USA [ITA; FRA] PermissionError).
    + reflexivity.
    + intros [|i] m' Hi; simpl in Hi; inversion Hi; reflexivity.
    + reflexivity.
    + reflexivity.
  - reflexivity.
Defined.

(** X10. What [get_company_name_from_ticker] returns tells what the
    lookups answered. A name was the answer of the last lookup made, and
    every lookup before it gave no name or a [ValueError]. [None] means
    all four markets gave no name or a [ValueError]. An exception is the
    one the last lookup raised, and it is no [ValueError]. *)
Theorem company_name_result_inversion
    (upper : str -> str) (provider : nat -> str -> TickerLookup.lookup)
    (ticker : str) (t t' : TickerLookup.trace) (r : result (option str)) :
  TickerLookup.get_company_name_from_ticker upper provider ticker t = (r, t') ->
  match r with
  | Ok (Some name) =>
      exists pre m post,
        TickerLookup.markets = pre ++ m :: post /\
        (forall i m', pre !! i = Some m' ->
           TickerLookup.no_match
             (TickerLookup.answer upper provider t ticker i m') = true) /\
        TickerLookup.answer upper provider t ticker (length pre) m
          = TickerLookup.Info (Some name) /\
        t' = TickerLookup.extend upper t ticker (pre ++ [m])
  | Ok None =>
      (forall i m', TickerLookup.markets !! i = Some m' ->
         TickerLookup.no_match
           (TickerLookup.answer upper provider t ticker i m') = true) /\
      t' = TickerLookup.extend upper t ticker TickerLookup.markets
  | Raise e =>
      exists pre m post,
        TickerLookup.markets = pre ++ m :: post /\
        (forall i m', pre !! i = Some m' ->
           TickerLookup.no_match
             (TickerLookup.answer upper provider t ticker i m') = true) /\
        TickerLookup.answer upper provider t ticker (length pre) m
          = TickerLookup.Throws e /\
        TickerLookup.is_ValueError e = false /\
        t' = TickerLookup.extend upper t ticker (pre ++ [m])
  end.
Proof. apply MoreTickerFacts.try_markets_inversion. Qed.

Lemma company_name_result_inversion_witness :
  (forall i m', TickerLookup.markets !! i = Some m' ->
     TickerLookup.no_match
       (TickerLookup.answer TickerLookup.ascii_upper
          (fun _ _ => TickerLookup.Info None) TickerLookup.start
          (lit "zzz") i m') = true) /\
  TickerLookup.mkTrace [lit "ZZZ.ST"; lit "ZZZ"; lit "ZZZ.MI"; lit "ZZZ.PA"]
                       [lit "ZZZ.ST"; lit "ZZZ"; lit "ZZZ.MI"; lit "ZZZ.PA"] =
  TickerLookup.extend TickerLookup.ascii_upper TickerLookup.start (lit "zzz")
    TickerLookup.markets.
Proof.
  apply (company_name_result_inversion TickerLookup.ascii_upper
           (fun _ _ => TickerLookup.Info None) (lit "zzz") TickerLookup.start
           _ (Ok None)).
  reflexivity.
Defined.

(** X11. Every call prints the symbols it looks up, each once and in
    the order of the lookups, and makes at least one and at most four
    lookups. *)
Theorem company_name_prints_each_lookup
    (upper : str -> str) (provider : nat -> str -> TickerLookup.lookup)
    (ticker : str) (t : TickerLookup.trace) :
  let t' :=
    (TickerLookup.get_company_name_from_ticker upper provider ticker t).2 in
  exists symbols,
    (1 <= length symbols <= 4)%nat /\
    TickerLookup.stdout t' = TickerLookup.stdout t ++ symbols /\
    TickerLookup.calls t' = TickerLookup.calls t ++ symbols.
Proof.
  cbv zeta.
  destruct (MoreTickerFacts.company_name_calls upper provider ticker t)
    as (k & Hk & ->).
  exists (map (TickerLookup.symbol upper ticker) (take k TickerLookup.markets)).
  split; [|by split].
  rewrite length_map, length_take. simpl. lia.
Qed.

(** X12. Two tickers with the same upper-case form give the same
    lookups and the same result: the lookup does not see the case of the
    ticker. *)
Theorem company_name_ignores_case
    (upper : str -> str) (provider : nat -> str -> TickerLookup.lookup)
    (ticker1 ticker2 : str) (t : TickerLookup.trace) :
  upper ticker1 = upper ticker2 ->
  TickerLookup.get_company_name_from_ticker upper provider ticker1 t =
  TickerLookup.get_company_name_from_ticker upper provider ticker2 t.
Proof.
  intros H. by apply MoreTickerFacts.try_markets_same_upper.
Qed.

Lemma company_name_ignores_case_witness :
  TickerLookup.get_company_name_from_ticker TickerLookup.ascii_upper
    (fun _ _ => TickerLookup.Info None) (lit "aapl") TickerLookup.start =
  TickerLookup.get_company_name_from_ticker TickerLookup.ascii_upper
    (fun _ _ => TickerLookup.Info None) (lit "AaPl") TickerLookup.start.
Proof.
  apply company_name_ignores_case. reflexivity.
Defined.

(** ** [app.py] *)

Module AppFacts.
Import App.

Lemma quiet_ret {A} (a : A) : quiet (mret a).
Proof. intros p r p' [= <- <-]. by repeat split. Qed.

Lemma quiet_bind {A B} (m : prog A) (k : A -> prog B) :
  quiet m -> (forall a, quiet (k a)) -> quiet (m ≫= k).
Proof.
  intros Hm Hk p r p'. unfold mbind, prog_bind.
  destruct (m p) as [[a|f] p1] eqn:E.
  - intros H. destruct (Hm _ _ _ E) as (Hs & _).
    destruct (Hk a _ _ _ H) as (Hs' & Hrest). split; [congruence|exact Hrest].
  - intros [= <- <-]. destruct (Hm _ _ _ E) as (Hs & He & Hx).
    split; [done|]. split.
    + intros [= ->]. by apply He.
    + intros code [= ->]. by apply (Hx code).
Qed.

Lemma quiet_on_files {A} (m : io A) : quiet (on_files m).
Proof.
  intros p r p'. unfold on_files.
  destruct (m (fs p)) as [[a|e] w]; intros [= <- <-]; by repeat split.
Qed.

Lemma quiet_on_provider {A}
    (m : TickerLookup.trace -> result A * TickerLookup.trace) :
  quiet (on_provider m).
Proof.
  intros p r p'. unfold on_provider.
  destruct (m (history p)) as [[a|e] t]; intros [= <- <-]; by repeat split.
Qed.

Lemma quiet_pure {A} (o : outcome A) :
  o <> Stop EOFError -> (forall code, o <> Stop (SystemExit code)) ->
  quiet (fun p => (o, p)).
Proof. intros He Hx p r p' [= <- <-]. by repeat split. Qed.

Lemma quiet_get_tickers v : quiet (fun p => (get_tickers v, p)).
Proof. apply quiet_pure; destruct v; repeat intro; discriminate. Qed.

Lemma quiet_iterate v : quiet (fun p => (iterate v, p)).
Proof. apply quiet_pure; destruct v; repeat intro; discriminate. Qed.

Lemma keeps_files_ret {A} (a : A) : keeps_files (mret a).
Proof. by intros p r p' [= <- <-]. Qed.

Lemma keeps_files_bind {A B} (m : prog A) (k : A -> prog B) :
  keeps_files m -> (forall a, keeps_files (k a)) -> keeps_files (m ≫= k).
Proof.
  intros Hm Hk p r p'. unfold mbind, prog_bind.
  destruct (m p) as [[a|f] p1] eqn:E.
  - intros H. destruct (Hm _ _ _ E) as [? ?].
    destruct (Hk a _ _ _ H) as [? ?]. split; congruence.
  - intros [= <- <-]. exact (Hm _ _ _ E).
Qed.

Lemma keeps_files_on_provider {A}
    (m : TickerLookup.trace -> result A * TickerLookup.trace) :
  keeps_files (on_provider m).
Proof.
  intros p r p'. unfold on_provider.
  by destruct (m (history p)) as [[a|e] t]; intros [= <- <-].
Qed.

Lemma keeps_files_pure {A} (o : outcome A) : keeps_files (fun p => (o, p)).
Proof. by intros p r p' [= <- <-]. Qed.

Section WithEnvironment.

Variable home : Path.
Variable upper : str -> str.
Variable provider : nat -> str -> TickerLookup.lookup.

Lemma quiet_for_each_ticker items : quiet (for_each_ticker upper provider items).
Proof.
  induction items as [|ticker rest IH]; cbn [for_each_ticker].
  - apply quiet_ret.
  - destruct ticker; try (apply quiet_pure; repeat intro; discriminate).
    apply quiet_bind; [apply quiet_on_provider|]. intros _. exact IH.
Qed.

Lemma quiet_for_statement config : quiet (for_statement upper provider config).
Proof.
  unfold for_statement.
  apply quiet_bind; [apply quiet_get_tickers|]. intros tickers.
  apply quiet_bind; [apply quiet_iterate|]. intros items.
  apply quiet_for_each_ticker.
Qed.

Lemma keeps_files_for_each_ticker items :
  keeps_files (for_each_ticker upper provider items).
Proof.
  induction items as [|ticker rest IH]; cbn [for_each_ticker].
  - apply keeps_files_ret.
  - destruct ticker; try apply keeps_files_pure.
    apply keeps_files_bind; [apply keeps_files_on_provider|]. intros _. exact IH.
Qed.

Lemma keeps_files_for_statement config :
  keeps_files (for_statement upper provider config).
Proof.
  unfold for_statement.
  apply keeps_files_bind; [apply keeps_files_pure|]. intros tickers.
  apply keeps_files_bind; [apply keeps_files_pure|]. intros items.
  apply keeps_files_for_each_ticker.
Qed.

(** The calls of a loop over [items]: at most four for each of them. *)
Lemma for_each_ticker_calls items :
  forall p,
    (length (TickerLookup.calls
               (history (for_each_ticker upper provider items p).2))
     <= length (TickerLookup.calls (history p)) + 4 * length items)%nat.
Proof.
  induction items as [|ticker rest IH]; intros p; cbn [for_each_ticker].
  - simpl. lia.
  - destruct ticker; try (simpl; lia).
    unfold mbind, prog_bind, on_provider.
    destruct (TickerLookupFacts.try_markets_calls upper provider
                TickerLookup.markets s (history p)) as (k & Hk & Heq).
    unfold TickerLookup.get_company_name_from_ticker.
    destruct (TickerLookup.try_markets upper provider TickerLookup.markets s
                (history p)) as [[name|e] t] eqn:E; cbn [snd] in Heq; subst t.
    + etransitivity; [apply IH|]. cbn [history length].
      unfold TickerLookup.extend. cbn [TickerLookup.calls].
      rewrite length_app, length_map, length_take. simpl in Hk |- *. lia.
    + cbn [snd history]. unfold TickerLookup.extend. cbn [TickerLookup.calls].
      rewrite length_app, length_map, length_take. simpl in Hk |- *. lia.
Qed.

Variable lower : str -> str.

(** With the configuration directory in place [initial_setup] asks
    nothing: it is the call that ensures the default file. *)
Lemma initial_setup_existing p :
  Os.exists_ (fs p) (ConfigStore.CONFIG_DIR home) = true ->
  initial_setup home lower p =
  on_files (ConfigStore.create_default_config_if_not_exists home) p.
Proof.
  intros Hex. unfold initial_setup, mbind, prog_bind, ask_to_create.
  by rewrite Hex.
Qed.

(** [main], once the setup is done and the configuration loaded. *)
Lemma main_after_load p p1 config w2 :
  initial_setup home lower p = (Done tt, p1) ->
  ConfigStore.load_last_config home (fs p1) = (Ok config, w2) ->
  main home upper lower provider p =
  (for_statement upper provider config ;;
   on_files (ConfigStore.save_last_config home (config_path config)))
    (mkProcess w2 (history p1) (stdin p1)).
Proof.
  intros Hs Hl. unfold main. unfold mbind at 1. unfold prog_bind at 1.
  rewrite Hs. unfold mbind at 1. unfold prog_bind at 1.
  unfold on_files at 1. by rewrite Hl.
Qed.

End WithEnvironment.
End AppFacts.

(** X13. A run of the program never asks its question. The import of
    [config] has created the configuration directory, so [initial_setup]
    finds it: standard input is not read, and the run ends neither in
    [EOFError] nor in [sys.exit]. *)
Theorem run_never_prompts
    (home : Path) (upper lower : str -> str)
    (provider : nat -> str -> TickerLookup.lookup) (p : App.process) :
  let r := App.run home upper lower provider p in
  App.stdin r.2 = App.stdin p /\
  r.1 <> App.Stop App.EOFError /\
  forall code, r.1 <> App.Stop (App.SystemExit code).
Proof.
  cbv zeta.
  destruct (App.run home upper lower provider p) as [r p'] eqn:Erun.
  cbn [fst snd]. revert Erun.
  unfold App.run. unfold mbind at 1. unfold App.prog_bind at 1.
  unfold App.on_files at 1.
  destruct (ConfigStore.import_module home (App.fs p)) as [[[]|e] w1] eqn:Ei;
    [|intros [= <- <-]; split; [done|split; [|intros code]; intros [=]]].
  pose proof (DirFacts.is_dir_after_makedirs _ _ _ Ei) as Hdir.
  assert (Hex : Os.exists_ w1 (ConfigStore.CONFIG_DIR home) = true).
  { unfold Os.is_dir in Hdir. unfold Os.exists_.
    by destruct (Os.stat w1 (ConfigStore.CONFIG_DIR home)). }
  set (p1 := App.mkProcess w1 (App.history p) (App.stdin p)).
  pose (body :=
          (App.on_files
             (ConfigStore.create_default_config_if_not_exists home) ;;
           config ← App.on_files (ConfigStore.load_last_config home);
           App.for_statement upper provider config ;;
           App.on_files
             (ConfigStore.save_last_config home (config_path config)))
          : App.prog unit).
  assert (Hquiet : App.quiet body).
  { apply AppFacts.quiet_bind; [apply AppFacts.quiet_on_files|]. intros _.
    apply AppFacts.quiet_bind; [apply AppFacts.quiet_on_files|]. intros config.
    apply AppFacts.quiet_bind; [apply AppFacts.quiet_for_statement|]. intros _.
    apply AppFacts.quiet_on_files. }
  assert (Hmain : App.main home upper lower provider p1 = body p1).
  { unfold App.main, body. unfold mbind at 1 5. unfold App.prog_bind at 1 5.
    by rewrite (AppFacts.initial_setup_existing home lower p1 Hex). }
  fold p1. rewrite Hmain. intros E.
  exact (Hquiet _ _ _ E).
Qed.

(** X14. The configuration directory does not exist and the answer read
    is not, once stripped and lower-cased, the letter y: [initial_setup]
    prints its question and its goodbye and exits with status 0, and the
    file system is as it was. At the end of standard input it stops with
    [EOFError], the question printed. *)
Theorem initial_setup_declined
    (home : Path) (lower : str -> str) (p : App.process) :
  Os.exists_ (App.fs p) (ConfigStore.CONFIG_DIR home) = false ->
  (forall line rest,
     App.stdin p = line :: rest ->
     lower (Text.strip line) <> lit "y" ->
     App.initial_setup home lower p =
     (App.Stop (App.SystemExit 0),
      App.mkProcess (App.fs p)
        (TickerLookup.mkTrace
           (TickerLookup.stdout (App.history p) ++ [App.question; App.goodbye])
           (TickerLookup.calls (App.history p)))
        rest)) /\
  (App.stdin p = [] ->
   App.initial_setup home lower p =
   (App.Stop App.EOFError,
    App.mkProcess (App.fs p)
      (TickerLookup.mkTrace
         (TickerLookup.stdout (App.history p) ++ [App.question])
         (TickerLookup.calls (App.history p)))
      [])).
Proof.
  intros Hex. split.
  - intros line rest Hin Hno.
    unfold App.initial_setup, App.ask_to_create. unfold mbind at 1.
    unfold App.prog_bind at 1. rewrite Hex. cbn [negb].
    unfold mbind, App.prog_bind, App.print, App.input.
    cbn [App.stdin App.fs App.history].
    rewrite Hin. rewrite bool_decide_eq_false_2 by exact Hno.
    unfold App.stop. cbn. by rewrite <- app_assoc.
  - intros Hin.
    unfold App.initial_setup, App.ask_to_create. unfold mbind at 1.
    unfold App.prog_bind at 1. rewrite Hex. cbn [negb].
    unfold mbind, App.prog_bind, App.print, App.input.
    cbn [App.stdin App.fs App.history].
    by rewrite Hin.
Qed.

Lemma initial_setup_declined_witness :
  App.initial_setup Samples.home (fun s => s)
    (App.mkProcess Samples.bare TickerLookup.start [lit " n "; lit "y"]) =
  (App.Stop (App.SystemExit 0),
   App.mkProcess Samples.bare
     (TickerLookup.mkTrace [App.question; App.goodbye] []) [lit "y"]).
Proof.
  apply (proj1 (initial_setup_declined Samples.home (fun s => s)
                  (App.mkProcess Samples.bare TickerLookup.start
                     [lit " n "; lit "y"])
                  ltac:(evaluate)) (lit " n ") [lit "y"] eq_refl).
  discriminate.
Defined.

(** X15. When [initial_setup] returns, the default data file exists. *)
Theorem initial_setup_ensures_default
    (home : Path) (lower : str -> str) (p p' : App.process) :
  App.initial_setup home lower p = (App.Done tt, p') ->
  Os.exists_ (App.fs p') (ConfigStore.DEFAULT_DATA_FILE home) = true.
Proof.
  unfold App.initial_setup, mbind, App.prog_bind.
  destruct (App.ask_to_create home lower p) as [[[]|f] p1]; [|discriminate].
  unfold App.on_files.
  destruct (ConfigStore.create_default_config_if_not_exists home (App.fs p1))
    as [[[]|e] w] eqn:E; [|discriminate].
  intros [= <-]. cbn [App.fs].
  apply MoreSaveFacts.ensure_default_result in E
    as [(Hex & _ & ->)|[(_ & Hopen & _ & ->)|(_ & _ & _ & e & ?)]];
    [done| |discriminate].
  destruct (OsFacts.stat_after_write (App.fs p1) _
              ConfigStore.default_bytes Hopen) as (r & wr & Hs).
  unfold Os.exists_. by rewrite Hs.
Qed.

Lemma initial_setup_ensures_default_witness :
  Os.exists_
    (App.fs (App.initial_setup Samples.home (fun s => s)
               (App.mkProcess Samples.bare TickerLookup.start [lit "y"])).2)
    (ConfigStore.DEFAULT_DATA_FILE Samples.home) = true.
Proof.
  apply (initial_setup_ensures_default Samples.home (fun s => s)
           (App.mkProcess Samples.bare TickerLookup.start [lit "y"])).
  evaluate.
Defined.

(** X16. End to end without tickers: the setup is done, the
    configuration is loaded, and what its [tickers] give to iterate over
    is empty (an empty list, or no such key). Then [main] makes no lookup
    and no further call of [print]: what is left of it is the save of the
    path that was loaded. *)
Theorem main_without_tickers
    (home : Path) (upper lower : str -> str)
    (provider : nat -> str -> TickerLookup.lookup)
    (p p1 : App.process) (config : Config) (w2 : world) (tickers : Json.value) :
  App.initial_setup home lower p = (App.Done tt, p1) ->
  ConfigStore.load_last_config home (App.fs p1) = (Ok config, w2) ->
  App.get_tickers (contents config) = App.Done tickers ->
  App.iterate tickers = App.Done [] ->
  App.main home upper lower provider p =
  App.on_files (ConfigStore.save_last_config home (config_path config))
    (App.mkProcess w2 (App.history p1) (App.stdin p1)).
Proof.
  intros Hs Hl Hg Hi.
  rewrite (AppFacts.main_after_load home upper provider lower p p1 config w2 Hs Hl).
  unfold App.for_statement, mbind, App.prog_bind. by rewrite Hg, Hi.
Qed.

Lemma main_without_tickers_witness :
  let p := App.mkProcess Samples.fresh TickerLookup.start [] in
  let r := App.main Samples.home TickerLookup.ascii_upper (fun s => s)
             (fun _ _ => TickerLookup.Info None) p in
  r.1 = App.Done tt /\ App.history r.2 = TickerLookup.start.
Proof.
  intros p r. subst r.
  rewrite (main_without_tickers Samples.home TickerLookup.ascii_upper
             (fun s => s) (fun _ _ => TickerLookup.Info None) p
             (App.initial_setup Samples.home (fun s => s) p).2
             (mkConfig (ConfigStore.DEFAULT_DATA_FILE Samples.home)
                ConfigStore.default_contents)
             (App.fs (App.initial_setup Samples.home (fun s => s) p).2)
             (JArray [])); subst p; try evaluate.
  split; evaluate.
Defined.

(** X17. The loop over the tickers leaves the file system and standard
    input alone and makes at most four lookups for each value it is
    given. *)
Theorem ticker_loop_is_bounded
    (upper : str -> str) (provider : nat -> str -> TickerLookup.lookup)
    (items : list Json.value) (p : App.process) :
  let p' := (App.for_each_ticker upper provider items p).2 in
  App.fs p' = App.fs p /\
  App.stdin p' = App.stdin p /\
  (length (TickerLookup.calls (App.history p'))
   <= length (TickerLookup.calls (App.history p)) + 4 * length items)%nat.
Proof.
  cbv zeta.
  destruct (App.for_each_ticker upper provider items p) as [r p'] eqn:E.
  destruct (AppFacts.keeps_files_for_each_ticker upper provider items _ _ _ E)
    as [Hf Hs].
  cbn [snd]. split; [done|]. split; [done|].
  pose proof (AppFacts.for_each_ticker_calls upper provider items p) as H.
  by rewrite E in H.
Qed.

(** X18. Contents that are no JSON object have no [get]: once such a
    configuration is loaded, [main] stops with [AttributeError] before
    any lookup, and the pointer is not saved. *)
Theorem main_stops_on_contents_without_get
    (home : Path) (upper lower : str -> str)
    (provider : nat -> str -> TickerLookup.lookup)
    (p p1 : App.process) (config : Config) (w2 : world) :
  App.initial_setup home lower p = (App.Done tt, p1) ->
  ConfigStore.load_last_config home (App.fs p1) = (Ok config, w2) ->
  (forall members, contents config <> JObject members) ->
  App.main home upper lower provider p =
  (App.Stop App.AttributeError,
   App.mkProcess w2 (App.history p1) (App.stdin p1)).
Proof.
  intros Hs Hl Hno.
  rewrite (AppFacts.main_after_load home upper provider lower p p1 config w2 Hs Hl).
  unfold App.for_statement, mbind, App.prog_bind.
  destruct (contents config) as [| | | | | |members]; try reflexivity.
  by destruct (Hno members).
Qed.

Lemma main_stops_on_contents_without_get_witness :
  let p := App.mkProcess MoreSamples.list_default TickerLookup.start [] in
  App.main Samples.home TickerLookup.ascii_upper (fun s => s)
    (fun _ _ => TickerLookup.Info None) p =
  (App.Stop App.AttributeError, p).
Proof.
  intros p.
  apply (main_stops_on_contents_without_get Samples.home
           TickerLookup.ascii_upper (fun s => s)
           (fun _ _ => TickerLookup.Info None) p p
           (mkConfig (ConfigStore.DEFAULT_DATA_FILE Samples.home)
              (JArray [JString (lit "AAPL")]))
           MoreSamples.list_default); subst p; try evaluate.
  discriminate.
Defined.

(** X19. A fault while the tickers are looked up (a ticker that is no
    string, an exception of the provider that is no [ValueError]) ends
    [main] there: the pointer is not saved, and the file system is the one
    the load left. *)
Theorem main_fault_skips_the_save
    (home : Path) (upper lower : str -> str)
    (provider : nat -> str -> TickerLookup.lookup)
    (p p1 p3 : App.process) (config : Config) (w2 : world) (f : App.fault) :
  App.initial_setup home lower p = (App.Done tt, p1) ->
  ConfigStore.load_last_config home (App.fs p1) = (Ok config, w2) ->
  App.for_statement upper provider config
    (App.mkProcess w2 (App.history p1) (App.stdin p1)) = (App.Stop f, p3) ->
  App.main home upper lower provider p = (App.Stop f, p3) /\
  App.fs p3 = w2.
Proof.
  intros Hs Hl Hf.
  rewrite (AppFacts.main_after_load home upper provider lower p p1 config w2 Hs Hl).
  split.
  - unfold mbind, App.prog_bind. by rewrite Hf.
  - by destruct (AppFacts.keeps_files_for_statement upper provider config _ _ _ Hf).
Qed.

Lemma main_fault_skips_the_save_witness :
  let p := App.mkProcess Samples.with_default TickerLookup.start [] in
  let r := App.main Samples.home TickerLookup.ascii_upper (fun s => s)
             (fun n _ => match n with
                         | 5%nat => TickerLookup.Throws PermissionError
                         | _ => TickerLookup.Info None
                         end) p in
  r.1 = App.Stop (App.Raised PermissionError) /\
  App.fs r.2 = Samples.with_default.
Proof.
  intros p r.
  destruct (main_fault_skips_the_save Samples.home TickerLookup.ascii_upper
              (fun s => s)
              (fun n _ => match n with
                          | 5%nat => TickerLookup.Throws PermissionError
                          | _ => TickerLookup.Info None
                          end) p p r.2
              (mkConfig (ConfigStore.DEFAULT_DATA_FILE Samples.home)
                 Samples.sample_tickers)
              Samples.with_default (App.Raised PermissionError))
    as [Hmain Hfs]; subst r p; try evaluate.
  split; [|exact Hfs]. evaluate.
Defined.

(** X20. A run of [main] that completes has saved the pointer last: the
    setup returned, a configuration was loaded, and the pointer file now
    holds the UTF-8 form of the absolute path of that configuration. *)
Theorem main_completed_saves_loaded_path
    (home : Path) (upper lower : str -> str)
    (provider : nat -> str -> TickerLookup.lookup) (p p' : App.process) :
  App.main home upper lower provider p = (App.Done tt, p') ->
  exists p1 config w2,
    App.initial_setup home lower p = (App.Done tt, p1) /\
    ConfigStore.load_last_config home (App.fs p1) = (Ok config, w2) /\
    ConfigStore.save_last_config home (config_path config) w2
      = (Ok tt, App.fs p') /\
    exists r wr data,
      Os.stat (App.fs p') (ConfigStore.LAST_CONFIG_FILE home)
        = Ok (File r wr data) /\
      Text.encode
        (Pathlib.to_str (Pathlib.absolute (cwd w2) (config_path config)))
        = Some data.
Proof.
  intros Hmain.
  destruct (App.initial_setup home lower p) as [[[]|f] p1] eqn:Hs.
  2:{ unfold App.main in Hmain. unfold mbind at 1 in Hmain.
      unfold App.prog_bind at 1 in Hmain. by rewrite Hs in Hmain. }
  destruct (ConfigStore.load_last_config home (App.fs p1))
    as [[config|e] w2] eqn:Hl.
  2:{ unfold App.main in Hmain. unfold mbind at 1 in Hmain.
      unfold App.prog_bind at 1 in Hmain. rewrite Hs in Hmain.
      unfold mbind at 1 in Hmain. unfold App.prog_bind at 1 in Hmain.
      unfold App.on_files at 1 in Hmain. by rewrite Hl in Hmain. }
  rewrite (AppFacts.main_after_load home upper provider lower p p1 config w2 Hs Hl)
    in Hmain.
  unfold mbind, App.prog_bind in Hmain.
  destruct (App.for_statement upper provider config _) as [[[]|f] p3] eqn:Hf;
    [|discriminate].
  destruct (AppFacts.keeps_files_for_statement upper provider config _ _ _ Hf)
    as [Hfs _]. cbn [App.fs] in Hfs.
  unfold App.on_files in Hmain. rewrite Hfs in Hmain.
  destruct (ConfigStore.save_last_config home (config_path config) w2)
    as [[[]|e] w3] eqn:Hsave; [|discriminate].
  injection Hmain as <-. cbn [App.fs].
  exists p1, config, w2. split; [done|]. split; [done|]. split; [done|].
  destruct (SaveFacts.save_result home _ _ _ Hsave) as (_ & _ & Hptr).
  exact Hptr.
Qed.

Lemma main_completed_saves_loaded_path_witness :
  exists p1 config w2,
    App.initial_setup Samples.home (fun s => s)
      (App.mkProcess Samples.with_custom TickerLookup.start [])
      = (App.Done tt, p1) /\
    ConfigStore.load_last_config Samples.home (App.fs p1) = (Ok config, w2) /\
    ConfigStore.save_last_config Samples.home (config_path config) w2
      = (Ok tt, Samples.with_custom) /\
    exists r wr data,
      Os.stat Samples.with_custom (ConfigStore.LAST_CONFIG_FILE Samples.home)
        = Ok (File r wr data) /\
      Text.encode
        (Pathlib.to_str (Pathlib.absolute (cwd w2) (config_path config)))
        = Some data.
Proof.
  apply (main_completed_saves_loaded_path Samples.home TickerLookup.ascii_upper
           (fun s => s) (fun _ _ => TickerLookup.Info None)
           (App.mkProcess Samples.with_custom TickerLookup.start [])
           (App.mkProcess Samples.with_custom
              (TickerLookup.extend TickerLookup.ascii_upper
                 (TickerLookup.extend TickerLookup.ascii_upper
                    TickerLookup.start (lit "TSLA") TickerLookup.markets)
                 (lit "NVDA") TickerLookup.markets)
              [])).
  evaluate.
Defined.
